(** * SpotLight: texture projection, shadow projection and uniform packaging

    A shallow embedding of [src/Lights/babylon.spotLight.ts].

    Numbers.  A JavaScript [number] is modelled by a real number: the
    development treats the arithmetic of the light as exact.  What the source
    leaves [undefined] (the never initialised [_shadowAngleScale]) is an
    [option].

    Objects.  A [Matrix] is a mutable object: the light holds a reference to
    its texture matrix and the source fills matrices in place ([copyFrom],
    [multiplyToRef], [...ToRef]).  The embedding keeps a store of matrices
    indexed by references, so that an assigned matrix and the light's own
    matrix can be the same object.

    Effects.  Methods are computations in a small state-and-completion monad
    over the [World] (the light, the matrix store, the scene's active camera,
    and the calls received by the uniform buffer and by the effect).

    Not in the source file, and absent here: the setters of [position] and
    [direction], which the class inherits from ShadowLight.  The constructor
    is not modelled either: it runs [computeTextureMatrix] while [light_near]
    is still [undefined]; the examples start from a constructed light. *)

From Stdlib Require Import Reals Lra List String Bool.
Import ListNotations.

Open Scope R_scope.

(** ** Math library: vectors

    Modelled from the spec: the class [Vector3] is not in src/.  The source
    uses [add], [Up], [Normalize] and the components of a vector; the other
    operations serve the look-at matrix. *)

Record Vector3 := mkVector3 { x : R; y : R; z : R }.

Module Vector3.

Definition Zero : Vector3 := mkVector3 0 0 0.

Definition Up : Vector3 := mkVector3 0 1 0.

Definition add (a b : Vector3) : Vector3 :=
  mkVector3 (x a + x b) (y a + y b) (z a + z b).

Definition subtract (a b : Vector3) : Vector3 :=
  mkVector3 (x a - x b) (y a - y b) (z a - z b).

Definition scale (a : Vector3) (k : R) : Vector3 :=
  mkVector3 (x a * k) (y a * k) (z a * k).

Definition Dot (a b : Vector3) : R :=
  x a * x b + y a * y b + z a * z b.

Definition Cross (a b : Vector3) : Vector3 :=
  mkVector3 (y a * z b - z a * y b)
            (z a * x b - x a * z b)
            (x a * y b - y a * x b).

Definition lengthSquared (a : Vector3) : R :=
  x a * x a + y a * y a + z a * z a.

Definition length (a : Vector3) : R := sqrt (lengthSquared a).

(** Modelled from the spec: the direction is "normalized on use", divided
    by its length; a vector of length zero is returned as it is. *)
Definition Normalize (a : Vector3) : Vector3 :=
  if Req_dec_T (length a) 0 then a
  else mkVector3 (x a / length a) (y a / length a) (z a / length a).

End Vector3.

(** ** Math library: 4x4 matrices, row major, applied to row vectors

    Modelled from the spec: the class [Matrix] is not in src/.  A matrix is
    its sixteen values in the order [FromValuesToRef] takes them; products
    are in the "row-vector, left-to-right transform order". *)

Record Matrix := FromValues {
  m0  : R; m1  : R; m2  : R; m3  : R;
  m4  : R; m5  : R; m6  : R; m7  : R;
  m8  : R; m9  : R; m10 : R; m11 : R;
  m12 : R; m13 : R; m14 : R; m15 : R
}.

Module Matrix.

Definition Zero : Matrix :=
  FromValues 0 0 0 0  0 0 0 0  0 0 0 0  0 0 0 0.

Definition Identity : Matrix :=
  FromValues 1 0 0 0  0 1 0 0  0 0 1 0  0 0 0 1.

(** [multiply a b] is the product [a * b]: a row vector is transformed by
    [a] first and by [b] afterwards. *)
Definition multiply (a b : Matrix) : Matrix :=
  FromValues
    (m0 a * m0 b + m1 a * m4 b + m2 a * m8 b + m3 a * m12 b)
    (m0 a * m1 b + m1 a * m5 b + m2 a * m9 b + m3 a * m13 b)
    (m0 a * m2 b + m1 a * m6 b + m2 a * m10 b + m3 a * m14 b)
    (m0 a * m3 b + m1 a * m7 b + m2 a * m11 b + m3 a * m15 b)
    (m4 a * m0 b + m5 a * m4 b + m6 a * m8 b + m7 a * m12 b)
    (m4 a * m1 b + m5 a * m5 b + m6 a * m9 b + m7 a * m13 b)
    (m4 a * m2 b + m5 a * m6 b + m6 a * m10 b + m7 a * m14 b)
    (m4 a * m3 b + m5 a * m7 b + m6 a * m11 b + m7 a * m15 b)
    (m8 a * m0 b + m9 a * m4 b + m10 a * m8 b + m11 a * m12 b)
    (m8 a * m1 b + m9 a * m5 b + m10 a * m9 b + m11 a * m13 b)
    (m8 a * m2 b + m9 a * m6 b + m10 a * m10 b + m11 a * m14 b)
    (m8 a * m3 b + m9 a * m7 b + m10 a * m11 b + m11 a * m15 b)
    (m12 a * m0 b + m13 a * m4 b + m14 a * m8 b + m15 a * m12 b)
    (m12 a * m1 b + m13 a * m5 b + m14 a * m9 b + m15 a * m13 b)
    (m12 a * m2 b + m13 a * m6 b + m14 a * m10 b + m15 a * m14 b)
    (m12 a * m3 b + m13 a * m7 b + m14 a * m11 b + m15 a * m15 b).

(** Modelled from the spec: [Matrix.LookAtLHToRef] is not in src/.  The
    view matrix is "a look-at matrix from [eye] toward [target]" with the
    reference up vector [up], left-handed: the z axis points from the eye
    to the target, the x axis is [up] cross z, the y axis is z cross x, and
    the eye is carried to the origin. *)
Definition LookAtLH (eye target up : Vector3) : Matrix :=
  let zAxis := Vector3.Normalize (Vector3.subtract target eye) in
  let xAxis := Vector3.Normalize (Vector3.Cross up zAxis) in
  let yAxis := Vector3.Cross zAxis xAxis in
  let ex := - Vector3.Dot xAxis eye in
  let ey := - Vector3.Dot yAxis eye in
  let ez := - Vector3.Dot zAxis eye in
  FromValues (x xAxis) (x yAxis) (x zAxis) 0
             (y xAxis) (y yAxis) (y zAxis) 0
             (z xAxis) (z yAxis) (z zAxis) 0
             ex ey ez 1.

End Matrix.

(** Modelled from the spec: applying a matrix to a point "with homogeneous
    divide" ([Vector3.TransformCoordinates] is not in src/): the row vector
    [(x, y, z, 1)] is multiplied by the matrix and the first three components
    are divided by the fourth. *)
Definition TransformCoordinates (v : Vector3) (t : Matrix) : Vector3 :=
  let rx := x v * m0 t + y v * m4 t + z v * m8 t + m12 t in
  let ry := x v * m1 t + y v * m5 t + z v * m9 t + m13 t in
  let rz := x v * m2 t + y v * m6 t + z v * m10 t + m14 t in
  let rw := x v * m3 t + y v * m7 t + z v * m11 t + m15 t in
  mkVector3 (rx / rw) (ry / rw) (rz / rw).

(** The same computation in two steps: the product of the homogeneous row
    vector with the matrix, and the division by the fourth component. *)
Definition Row := (R * R * R * R)%type.

Definition homogeneous (v : Vector3) : Row := (x v, y v, z v, 1).

Definition rowTimes (r : Row) (t : Matrix) : Row :=
  let '(a, b, c, d) := r in
  (a * m0 t + b * m4 t + c * m8 t + d * m12 t,
   a * m1 t + b * m5 t + c * m9 t + d * m13 t,
   a * m2 t + b * m6 t + c * m10 t + d * m14 t,
   a * m3 t + b * m7 t + c * m11 t + d * m15 t).

Definition perspectiveDivide (r : Row) : Vector3 :=
  let '(a, b, c, d) := r in mkVector3 (a / d) (b / d) (c / d).

(** ** Collaborators *)

(** References to matrix objects. *)
Definition ref := nat.

(** Modelled from the spec: the camera collaborator (not in src/) "supplies
    depthMinZ, depthMaxZ for the shadow-projection matrix". *)
Record Camera := mkCamera { depthMinZ : R; depthMaxZ : R }.

Inductive Texture := mkTexture (id : nat).

Inductive AbstractMesh := mkMesh (id : nat).

(** Modelled from the spec: the uniform sink (not in src/) is "an opaque sink
    accepting named scalar/vector/matrix values and optional texture
    bindings".  It is represented by the calls it has received, oldest
    first. *)
Inductive UniformCall :=
| addUniform (name : string) (size : nat)
| create
| updateFloat4 (name : string) (a b c d : R) (suffix : string).

Inductive EffectCall :=
| setMatrix (effect : nat) (name : string) (value : Matrix)
| setTexture (effect : nat) (name : string) (value : Texture).

(** ** The light *)

Record SpotLight := mkSpotLight {
  (* inherited from ShadowLight *)
  position : Vector3;
  direction : Vector3;
  transformedPosition : Vector3;
  transformedDirection : Vector3;
  _needProjectionMatrixCompute : bool;
  projectedLightTexture : option Texture;
  (* declared by SpotLight *)
  _light_far : R;
  _light_near : R;
  _angle : R;
  _shadowAngleScale : option R;
  exponent : R;
  _textureMatrix : ref
}.

Definition with_transformed (p d : Vector3) (s : SpotLight) : SpotLight :=
  mkSpotLight (position s) (direction s) p d
    (_needProjectionMatrixCompute s) (projectedLightTexture s)
    (_light_far s) (_light_near s) (_angle s) (_shadowAngleScale s)
    (exponent s) (_textureMatrix s).

Definition with_needProjectionMatrixCompute (b : bool) (s : SpotLight)
  : SpotLight :=
  mkSpotLight (position s) (direction s)
    (transformedPosition s) (transformedDirection s)
    b (projectedLightTexture s)
    (_light_far s) (_light_near s) (_angle s) (_shadowAngleScale s)
    (exponent s) (_textureMatrix s).

Definition with_light_far (v : R) (s : SpotLight) : SpotLight :=
  mkSpotLight (position s) (direction s)
    (transformedPosition s) (transformedDirection s)
    (_needProjectionMatrixCompute s) (projectedLightTexture s)
    v (_light_near s) (_angle s) (_shadowAngleScale s)
    (exponent s) (_textureMatrix s).

Definition with_light_near (v : R) (s : SpotLight) : SpotLight :=
  mkSpotLight (position s) (direction s)
    (transformedPosition s) (transformedDirection s)
    (_needProjectionMatrixCompute s) (projectedLightTexture s)
    (_light_far s) v (_angle s) (_shadowAngleScale s)
    (exponent s) (_textureMatrix s).

Definition with_angle (v : R) (s : SpotLight) : SpotLight :=
  mkSpotLight (position s) (direction s)
    (transformedPosition s) (transformedDirection s)
    (_needProjectionMatrixCompute s) (projectedLightTexture s)
    (_light_far s) (_light_near s) v (_shadowAngleScale s)
    (exponent s) (_textureMatrix s).

Definition with_shadowAngleScale (v : option R) (s : SpotLight) : SpotLight :=
  mkSpotLight (position s) (direction s)
    (transformedPosition s) (transformedDirection s)
    (_needProjectionMatrixCompute s) (projectedLightTexture s)
    (_light_far s) (_light_near s) (_angle s) v
    (exponent s) (_textureMatrix s).

Definition with_textureMatrix (r : ref) (s : SpotLight) : SpotLight :=
  mkSpotLight (position s) (direction s)
    (transformedPosition s) (transformedDirection s)
    (_needProjectionMatrixCompute s) (projectedLightTexture s)
    (_light_far s) (_light_near s) (_angle s) (_shadowAngleScale s)
    (exponent s) r.

(** ** The world and the monad of methods *)

Record World := mkWorld {
  this : SpotLight;
  matrices : ref -> Matrix;
  activeCamera : option Camera;
  _uniformBuffer : list UniformCall;
  effects : list EffectCall
}.

(** [InvalidLightGeometry] is the failure kind the specification names. *)
Inductive Error := InvalidLightGeometry.

Inductive completion (A : Type) :=
| Normal (a : A) (w : World)
| Throw (e : Error).
Arguments Normal {A} a w.
Arguments Throw {A} e.

Definition M (A : Type) : Type := World -> completion A.

Definition ret {A} (a : A) : M A := fun w => Normal a w.

Definition bind {A B} (c : M A) (k : A -> M B) : M B :=
  fun w => match c w with
           | Normal a w' => k a w'
           | Throw e => Throw e
           end.

Declare Scope js_scope.
Delimit Scope js_scope with js.
Notation "v <- c ;; k" := (bind c (fun v => k))
  (at level 61, c at next level, right associativity) : js_scope.
Notation "c ;; k" := (bind c (fun _ => k))
  (at level 61, right associativity) : js_scope.
Open Scope js_scope.

Definition getThis : M SpotLight := fun w => Normal (this w) w.

Definition setThis (f : SpotLight -> SpotLight) : M unit :=
  fun w => Normal tt (mkWorld (f (this w)) (matrices w) (activeCamera w)
                        (_uniformBuffer w) (effects w)).

Definition readMatrix (r : ref) : M Matrix :=
  fun w => Normal (matrices w r) w.

Definition store (h : ref -> Matrix) (r : ref) (v : Matrix) : ref -> Matrix :=
  fun r' => if Nat.eqb r' r then v else h r'.

Definition writeMatrix (r : ref) (v : Matrix) : M unit :=
  fun w => Normal tt (mkWorld (this w) (store (matrices w) r v)
                        (activeCamera w) (_uniformBuffer w) (effects w)).

Definition getActiveCamera : M (option Camera) :=
  fun w => Normal (activeCamera w) w.

Definition uniformCall (c : UniformCall) : M unit :=
  fun w => Normal tt (mkWorld (this w) (matrices w) (activeCamera w)
                        (_uniformBuffer w ++ [c]) (effects w)).

Definition effectCall (c : EffectCall) : M unit :=
  fun w => Normal tt (mkWorld (this w) (matrices w) (activeCamera w)
                        (_uniformBuffer w) (effects w ++ [c])).

(** The world a method leaves behind; the initial world when it throws. *)
Definition exec {A} (c : M A) (w : World) : World :=
  match c w with
  | Normal _ w' => w'
  | Throw _ => w
  end.

(** In-place matrix methods.  [multiplyToRef] reads the whole of the receiver
    before it writes the result, so receiver and result may be one object. *)
Definition copyFrom (self : ref) (other : Matrix) : M unit :=
  writeMatrix self other.

Definition multiplyToRef (self : ref) (other : Matrix) (result : ref)
  : M unit :=
  a <- readMatrix self ;;
  writeMatrix result (Matrix.multiply a other).

(** JavaScript's [v || d] on a possibly undefined number. *)
Definition orElse (v : option R) (d : R) : R :=
  match v with
  | Some r => if Req_dec_T r 0 then d else r
  | None => d
  end.

(** ** The specification's texture-projection builder

    Written from the words of the design (component 4.1), to be compared with
    what [computeTextureMatrix] leaves in the store. *)
Module Spec.

Definition view (position direction : Vector3) : Matrix :=
  Matrix.LookAtLH position (Vector3.add position direction) Vector3.Up.

Definition perspective (near far coneAngle : R) : Matrix :=
  let P := far / (far - near) in
  let Q := - P * near in
  let S := 1 / tan (coneAngle / 2) in
  let A := 1 in
  FromValues (S / A) 0 0 0
             0 S 0 0
             0 0 P 1
             0 0 Q 0.

Definition biasScale : Matrix :=
  FromValues 0.5 0 0 0
             0 0.5 0 0
             0 0 0.5 0
             0.5 0.5 0.5 1.

Definition build (position direction : Vector3) (near far coneAngle : R)
  : Matrix :=
  Matrix.multiply
    (Matrix.multiply (view position direction)
                     (perspective near far coneAngle))
    biasScale.

End Spec.

(** ** Methods of SpotLight *)

Section Methods.

(** [Matrix.PerspectiveFovLHToRef] is not in src/: the left-handed
    perspective matrix of a field of view, an aspect ratio and two
    planes is a parameter of the development. *)
Variable PerspectiveFovLH : R -> R -> R -> R -> Matrix.

(** Modelled from the spec: the transform cache (not in src/) resolves
    "effectivePosition, effectiveDirection, and a boolean
    hasParentTransform"; [None] stands for no parent transform. *)
Variable resolve : SpotLight -> option (Vector3 * Vector3).

Definition PerspectiveFovLHToRef (fov aspect znear zfar : R) (result : ref)
  : M unit :=
  writeMatrix result (PerspectiveFovLH fov aspect znear zfar).

Definition computeTransformedInformation : M bool :=
  s <- getThis ;;
  match resolve s with
  | Some (p, d) => setThis (with_transformed p d) ;; ret true
  | None => ret false
  end.

(** Modelled from the spec: [ShadowLight.forceProjectionMatrixCompute] is
    not in src/; changing the cone angle "invalidates the
    shadow-projection matrix", a request recorded in the inherited part of
    the light. *)
Definition forceProjectionMatrixCompute : M unit :=
  setThis (with_needProjectionMatrixCompute true).

(** Modelled from the spec: [getDepthMinZ] and [getDepthMaxZ] are inherited
    from ShadowLight (not in src/); the planes are "camera-derived". *)
Definition getDepthMinZ (activeCamera : Camera) : M R :=
  ret (depthMinZ activeCamera).

Definition getDepthMaxZ (activeCamera : Camera) : M R :=
  ret (depthMaxZ activeCamera).

Definition get_light_far : M R := s <- getThis ;; ret (_light_far s).

Definition get_light_near : M R := s <- getThis ;; ret (_light_near s).

(** Main function for light texture projection matrix computing.  The three
    temporaries are fresh objects that never leave the method: they are
    values here; [this._textureMatrix] is an object of the store. *)
Definition computeTextureMatrix : M unit :=
  s <- getThis ;;
  let viewLightMatrix :=
    Matrix.LookAtLH (position s) (Vector3.add (position s) (direction s))
                    Vector3.Up in
  light_far <- get_light_far ;;
  light_near <- get_light_near ;;
  let P := light_far / (light_far - light_near) in
  let Q := - P * light_near in
  let S := 1 / tan (_angle s / 2) in
  let A := 1 in
  let projectionLightMatrix :=
    FromValues (S / A) 0 0 0
               0 S 0 0
               0 0 P 1
               0 0 Q 0 in
  let scaleMatrix :=
    FromValues 0.5 0 0 0
               0 0.5 0 0
               0 0 0.5 0
               0.5 0.5 0.5 1 in
  copyFrom (_textureMatrix s) viewLightMatrix ;;
  multiplyToRef (_textureMatrix s) projectionLightMatrix (_textureMatrix s) ;;
  multiplyToRef (_textureMatrix s) scaleMatrix (_textureMatrix s).

Definition set_light_far (value : R) : M unit :=
  setThis (with_light_far value) ;;
  computeTextureMatrix.

Definition set_light_near (value : R) : M unit :=
  setThis (with_light_near value) ;;
  computeTextureMatrix.

Definition get_angle : M R := s <- getThis ;; ret (_angle s).

Definition set_angle (value : R) : M unit :=
  setThis (with_angle value) ;;
  forceProjectionMatrixCompute.

Definition get_shadowAngleScale : M (option R) :=
  s <- getThis ;; ret (_shadowAngleScale s).

Definition set_shadowAngleScale (value : R) : M unit :=
  setThis (with_shadowAngleScale (Some value)) ;;
  forceProjectionMatrixCompute.

(** The getter returns the object; [read_textureMatrix] below reads it. *)
Definition get_textureMatrix : M ref :=
  s <- getThis ;; ret (_textureMatrix s).

Definition set_textureMatrix (value : ref) : M unit :=
  setThis (with_textureMatrix value) ;;
  computeTextureMatrix.

Definition _setDefaultShadowProjectionMatrix
    (matrix viewMatrix : ref) (renderList : list AbstractMesh) : M unit :=
  activeCamera <- getActiveCamera ;;
  match activeCamera with
  | None => ret tt
  | Some activeCamera =>
      s <- getThis ;;
      let scale := orElse (_shadowAngleScale s) 1 in
      setThis (with_shadowAngleScale (Some scale)) ;;
      s <- getThis ;;
      (* [this._shadowAngleScale] reads back the value just stored *)
      let angle := scale * _angle s in
      znear <- getDepthMinZ activeCamera ;;
      zfar <- getDepthMaxZ activeCamera ;;
      PerspectiveFovLHToRef angle 1 znear zfar matrix
  end.

Definition _buildUniformLayout : M unit :=
  uniformCall (addUniform "vLightData" 4) ;;
  uniformCall (addUniform "vLightDiffuse" 4) ;;
  uniformCall (addUniform "vLightSpecular" 3) ;;
  uniformCall (addUniform "vLightDirection" 3) ;;
  uniformCall (addUniform "shadowsInfo" 3) ;;
  uniformCall (addUniform "depthValues" 2) ;;
  uniformCall (addUniform "textureProjectionFlag" 2) ;;
  uniformCall create.

Definition transferToEffect (effect : nat) (lightIndex : string)
  : M SpotLight :=
  hasParent <- computeTransformedInformation ;;
  normalizeDirection <-
    (if hasParent : bool then
       s <- getThis ;;
       uniformCall (updateFloat4 "vLightData"
                      (x (transformedPosition s))
                      (y (transformedPosition s))
                      (z (transformedPosition s))
                      (exponent s)
                      lightIndex) ;;
       ret (Vector3.Normalize (transformedDirection s))
     else
       s <- getThis ;;
       uniformCall (updateFloat4 "vLightData"
                      (x (position s))
                      (y (position s))
                      (z (position s))
                      (exponent s)
                      lightIndex) ;;
       ret (Vector3.Normalize (direction s))) ;;
  angle <- get_angle ;;
  uniformCall (updateFloat4 "vLightDirection"
                 (x normalizeDirection)
                 (y normalizeDirection)
                 (z normalizeDirection)
                 (cos (angle * 0.5))
                 lightIndex) ;;
  s <- getThis ;;
  tm <- readMatrix (_textureMatrix s) ;;
  effectCall (setMatrix effect ("textureMatrix" ++ lightIndex) tm) ;;
  match projectedLightTexture s with
  | Some t =>
      effectCall
        (setTexture effect ("projectionLightSampler" ++ lightIndex) t)
  | None => ret tt
  end ;;
  getThis.

(** ** Observations *)

(** Reading [textureMatrix]: the contents of the object the getter
    returns. *)
Definition read_textureMatrix (w : World) : Matrix :=
  matrices w (_textureMatrix (this w)).

(** What the builder of the specification gives for the five values the
    light holds now. *)
Definition built_from_current (w : World) : Matrix :=
  Spec.build (position (this w)) (direction (this w))
             (_light_near (this w)) (_light_far (this w))
             (_angle (this w)).

Definition up_to_date (w : World) : Prop :=
  read_textureMatrix w = built_from_current w.

(** The point of the light's optical axis at depth [d]. *)
Definition axis_point (s : SpotLight) (d : R) : Vector3 :=
  Vector3.add (position s)
              (Vector3.scale (Vector3.Normalize (direction s)) d).

(** A scale that is stored and is not zero. *)
Definition set_and_nonzero (v : option R) : Prop :=
  match v with
  | Some r => r <> 0
  | None => False
  end.

(** The number of components of the last write a buffer received for a
    slot; every write of this class is an [updateFloat4]. *)
Definition writes_to (name : string) (c : UniformCall) : bool :=
  match c with
  | updateFloat4 n _ _ _ _ _ => String.eqb n name
  | _ => false
  end.

Definition written_size (name : string) (calls : list UniformCall)
  : option nat :=
  match find (writes_to name) (rev calls) with
  | Some _ => Some 4%nat
  | None => None
  end.

(** The slots a buffer has been declared with, in order. *)
Definition slots (calls : list UniformCall) : list (string * nat) :=
  flat_map (fun c => match c with
                     | addUniform n size => [(n, size)]
                     | _ => []
                     end) calls.

(** The calls a client can make on a light, and runs of them. *)
Inductive Op :=
| SetLightFar (value : R)
| SetLightNear (value : R)
| SetAngle (value : R)
| SetShadowAngleScale (value : R)
| SetTextureMatrix (value : ref)
| ComputeTextureMatrix
| SetDefaultShadowProjectionMatrix (matrix viewMatrix : ref)
                                   (renderList : list AbstractMesh)
| TransferToEffect (effect : nat) (lightIndex : string).

Definition run_op (o : Op) : M unit :=
  match o with
  | SetLightFar v => set_light_far v
  | SetLightNear v => set_light_near v
  | SetAngle v => set_angle v
  | SetShadowAngleScale v => set_shadowAngleScale v
  | SetTextureMatrix r => set_textureMatrix r
  | ComputeTextureMatrix => computeTextureMatrix
  | SetDefaultShadowProjectionMatrix m v l =>
      _setDefaultShadowProjectionMatrix m v l
  | TransferToEffect e i => transferToEffect e i ;; ret tt
  end.

Fixpoint run_ops (os : list Op) : M unit :=
  match os with
  | [] => ret tt
  | o :: rest => run_op o ;; run_ops rest
  end.

(** An operation that assigns zero to [shadowAngleScale]. *)
Definition assigns_zero_scale (o : Op) : Prop :=
  match o with
  | SetShadowAngleScale v => v = 0
  | _ => False
  end.

End Methods.

(** ** Concrete collaborators and worlds for the examples *)

(** Modelled from the spec: a "left-handed perspective-field-of-view matrix"
    of a vertical field of view, an aspect ratio and the two planes
    ([Matrix.PerspectiveFovLHToRef] is not in src/); it instantiates the
    parameter of the development in the examples. *)
Definition PerspectiveFovLH_std (fov aspect znear zfar : R) : Matrix :=
  let t := 1 / tan (fov * 0.5) in
  FromValues (t / aspect) 0 0 0
             0 t 0 0
             0 0 (zfar / (zfar - znear)) 1
             0 0 (- (znear * zfar) / (zfar - znear)) 0.

Definition noParent (s : SpotLight) : option (Vector3 * Vector3) := None.

(** The light of the example scenario: at the origin, looking along +z, with
    the near and far planes of the constructor. *)
Definition example_light (angle : R) : SpotLight :=
  mkSpotLight (mkVector3 0 0 0) (mkVector3 0 0 1)
              Vector3.Zero Vector3.Zero
              true None
              1000 1e-7 angle None 2 0%nat.

Definition example_world (angle : R) (camera : option Camera) : World :=
  mkWorld (example_light angle) (fun _ => Matrix.Zero) camera [] [].

Definition example_camera : Camera := mkCamera 1 100.

(** ** The frame of the light

    The three axes the look-at matrix is made of, and the point with the
    coordinates [a] (to the right), [b] (upwards) and [d] (depth) in that
    frame. *)
Definition zAxis (s : SpotLight) : Vector3 :=
  Vector3.Normalize (direction s).

Definition xAxis (s : SpotLight) : Vector3 :=
  Vector3.Normalize (Vector3.Cross Vector3.Up (zAxis s)).

Definition yAxis (s : SpotLight) : Vector3 :=
  Vector3.Cross (zAxis s) (xAxis s).

Definition frame_point (s : SpotLight) (a b d : R) : Vector3 :=
  Vector3.add (position s)
    (Vector3.add (Vector3.scale (xAxis s) a)
       (Vector3.add (Vector3.scale (yAxis s) b)
                    (Vector3.scale (zAxis s) d))).

(** The position and the direction [transferToEffect] packages: the
    resolved ones under a parent transform, the light's own otherwise. *)
Definition effective (resolve : SpotLight -> option (Vector3 * Vector3))
    (s : SpotLight) : Vector3 * Vector3 :=
  match resolve s with
  | Some pd => pd
  | None => (position s, direction s)
  end.

(** The names of the slots a buffer has received writes for, in order. *)
Definition written_names (calls : list UniformCall) : list string :=
  flat_map (fun c => match c with
                     | updateFloat4 n _ _ _ _ _ => [n]
                     | _ => []
                     end) calls.

(** The operations after which an up-to-date texture matrix is still up to
    date: all but the setter of [angle] and the shadow-projection build. *)
Definition keeps_texture_matrix (o : Op) : Prop :=
  match o with
  | SetAngle _ => False
  | SetDefaultShadowProjectionMatrix _ _ _ => False
  | _ => True
  end.

(** A second matrix object and a world in which the light and the caller
    hold different objects with different contents. *)
Definition two_object_world : World :=
  mkWorld (example_light (PI / 2))
          (fun r => if Nat.eqb r 0 then Matrix.Zero else Matrix.Identity)
          (Some example_camera) [] [].

(** * Properties *)

(** ** The texture-projection build *)

Lemma store_same (h : ref -> Matrix) (r : ref) (v : Matrix) :
  store h r v r = v.
Proof. unfold store. now rewrite Nat.eqb_refl. Qed.

Lemma store_other (h : ref -> Matrix) (r r' : ref) (v : Matrix) :
  r' <> r -> store h r v r' = h r'.
Proof.
  intros Hne. unfold store.
  destruct (Nat.eqb r' r) eqn:E; [|reflexivity].
  apply Nat.eqb_eq in E. contradiction.
Qed.

(** Runs the monadic plumbing of a method, leaving the arithmetic alone. *)
Ltac run_js :=
  cbv beta iota zeta delta
    [bind ret exec getThis setThis readMatrix writeMatrix getActiveCamera
     uniformCall effectCall copyFrom multiplyToRef
     computeTextureMatrix forceProjectionMatrixCompute
     set_light_far set_light_near set_angle set_shadowAngleScale
     set_textureMatrix get_angle get_light_far get_light_near
     get_shadowAngleScale get_textureMatrix
     _setDefaultShadowProjectionMatrix PerspectiveFovLHToRef
     getDepthMinZ getDepthMaxZ computeTransformedInformation
     _buildUniformLayout transferToEffect
     with_transformed with_needProjectionMatrixCompute with_light_far
     with_light_near with_angle with_shadowAngleScale with_textureMatrix
     this matrices activeCamera _uniformBuffer effects
     position direction transformedPosition transformedDirection
     _needProjectionMatrixCompute projectedLightTexture
     _light_far _light_near _angle _shadowAngleScale exponent
     _textureMatrix].

(** What a run of [computeTextureMatrix] does to the world: it returns
    normally, writes the product of the three matrices into the object the
    light refers to, and touches nothing else. *)
Lemma computeTextureMatrix_effect (w : World) :
  exists w',
    computeTextureMatrix w = Normal tt w' /\
    this w' = this w /\
    activeCamera w' = activeCamera w /\
    _uniformBuffer w' = _uniformBuffer w /\
    effects w' = effects w /\
    matrices w' (_textureMatrix (this w)) = built_from_current w /\
    (forall r, r <> _textureMatrix (this w) -> matrices w' r = matrices w r).
Proof.
  destruct w as [s h cam ub eff].
  eexists. split; [run_js; reflexivity|].
  unfold built_from_current. run_js.
  repeat split.
  - rewrite !store_same. reflexivity.
  - intros r Hr. now rewrite !store_other.
Qed.

Lemma computeTextureMatrix_up_to_date (w : World) :
  up_to_date (exec computeTextureMatrix w).
Proof.
  destruct (computeTextureMatrix_effect w)
    as (w' & Hrun & Hthis & _ & _ & _ & Hm & _).
  unfold exec, up_to_date, read_textureMatrix, built_from_current.
  rewrite Hrun, Hthis. exact Hm.
Qed.

(** C2.  The matrix [computeTextureMatrix] leaves in the light's texture
    matrix is the product view * perspective * biasScale, in this order.  The
    view is the left-handed look-at matrix from the position toward position
    + direction with up vector (0,1,0).  The perspective matrix has the
    diagonal (S/A, S, P, 0) with P = far / (far - near), Q = - P * near,
    S = 1 / tan (angle / 2) and A = 1, the homogeneous term 1 in the last
    column of its z row, and Q as the z term of its translation row.  The
    bias matrix has the diagonal (0.5, 0.5, 0.5, 1) and the translation
    (0.5, 0.5, 0.5). *)
Theorem texture_matrix_is_view_perspective_bias (w : World) :
  let s := this w in
  let P := _light_far s / (_light_far s - _light_near s) in
  let Q := - P * _light_near s in
  let S := 1 / tan (_angle s / 2) in
  let A := 1 in
  exists view perspective biasScale : Matrix,
    read_textureMatrix (exec computeTextureMatrix w)
    = Matrix.multiply (Matrix.multiply view perspective) biasScale /\
    view = Matrix.LookAtLH (position s)
             (Vector3.add (position s) (direction s)) (mkVector3 0 1 0) /\
    perspective = FromValues (S / A) 0 0 0
                             0 S 0 0
                             0 0 P 1
                             0 0 Q 0 /\
    biasScale = FromValues 0.5 0 0 0
                           0 0.5 0 0
                           0 0 0.5 0
                           0.5 0.5 0.5 1.
Proof.
  intros s P Q S A.
  do 3 eexists. split; [|repeat split; reflexivity].
  apply (computeTextureMatrix_up_to_date w).
Qed.

Lemma exec_set_light_near (v : R) (w : World) :
  exec (set_light_near v) w
  = exec computeTextureMatrix (exec (setThis (with_light_near v)) w).
Proof. destruct w as [s h cam ub eff]. run_js. reflexivity. Qed.

Lemma exec_set_light_far (v : R) (w : World) :
  exec (set_light_far v) w
  = exec computeTextureMatrix (exec (setThis (with_light_far v)) w).
Proof. destruct w as [s h cam ub eff]. run_js. reflexivity. Qed.

Lemma exec_set_textureMatrix (v : ref) (w : World) :
  exec (set_textureMatrix v) w
  = exec computeTextureMatrix (exec (setThis (with_textureMatrix v)) w).
Proof. destruct w as [s h cam ub eff]. run_js. reflexivity. Qed.

(** C6.  Assigning a matrix object [v] to [textureMatrix] and reading the
    property back yields the matrix rebuilt from the light's current
    position, direction, near, far and angle, whatever [v] contained: the
    getter returns the object [v], whose contents the rebuild has
    overwritten. *)
Theorem textureMatrix_setter_rebuilds (w : World) (v : ref) :
  let w' := exec (set_textureMatrix v) w in
  read_textureMatrix w' = built_from_current w /\
  _textureMatrix (this w') = v /\
  matrices w' v = built_from_current w.
Proof.
  cbv zeta. rewrite exec_set_textureMatrix.
  pose proof (computeTextureMatrix_up_to_date
                (exec (setThis (with_textureMatrix v)) w)) as Hup.
  destruct (computeTextureMatrix_effect
              (exec (setThis (with_textureMatrix v)) w))
    as (w' & Hrun & Hthis & _).
  unfold up_to_date, read_textureMatrix, built_from_current in *.
  assert (Hw : exec computeTextureMatrix
                 (exec (setThis (with_textureMatrix v)) w) = w')
    by (unfold exec at 1; now rewrite Hrun).
  rewrite Hw in *. rewrite Hthis in *.
  destruct w as [s h cam ub eff]. destruct s.
  split; [exact Hup|]. split; [reflexivity|exact Hup].
Qed.

Lemma set_angle_keeps_matrix (v : R) (w : World) :
  read_textureMatrix (exec (set_angle v) w) = read_textureMatrix w /\
  _angle (this (exec (set_angle v) w)) = v.
Proof. split; reflexivity. Qed.

(** C1 (amended).  After the setter of [light_near] or of [light_far]
    returns, reading [textureMatrix] yields exactly the matrix the builder
    produces from the current position, direction, near, far and angle.  The
    setter of [angle] does not rebuild: it leaves the stored texture matrix
    as it was, so the matrix stays that of the previous angle until
    [computeTextureMatrix] is called. *)
Theorem near_far_setters_rebuild_angle_setter_does_not (w : World) (v : R) :
  up_to_date (exec (set_light_near v) w) /\
  up_to_date (exec (set_light_far v) w) /\
  read_textureMatrix (exec (set_angle v) w) = read_textureMatrix w /\
  _angle (this (exec (set_angle v) w)) = v.
Proof.
  split; [|split].
  - rewrite exec_set_light_near. apply computeTextureMatrix_up_to_date.
  - rewrite exec_set_light_far. apply computeTextureMatrix_up_to_date.
  - apply set_angle_keeps_matrix.
Qed.

(** ** The example scenario: a light at the origin looking along +z *)

Lemma Matrix_ext (a b : Matrix) :
  m0 a = m0 b -> m1 a = m1 b -> m2 a = m2 b -> m3 a = m3 b ->
  m4 a = m4 b -> m5 a = m5 b -> m6 a = m6 b -> m7 a = m7 b ->
  m8 a = m8 b -> m9 a = m9 b -> m10 a = m10 b -> m11 a = m11 b ->
  m12 a = m12 b -> m13 a = m13 b -> m14 a = m14 b -> m15 a = m15 b ->
  a = b.
Proof.
  destruct a, b. cbn. intros. subst. reflexivity.
Qed.

Lemma Vector3_ext (a b : Vector3) :
  x a = x b -> y a = y b -> z a = z b -> a = b.
Proof.
  destruct a, b. cbn. intros. subst. reflexivity.
Qed.

Ltac entries :=
  cbv beta iota zeta delta
    [m0 m1 m2 m3 m4 m5 m6 m7 m8 m9 m10 m11 m12 m13 m14 m15 x y z].

Ltac entries_in H :=
  cbv beta iota zeta delta
    [m0 m1 m2 m3 m4 m5 m6 m7 m8 m9 m10 m11 m12 m13 m14 m15 x y z] in H.

Lemma Normalize_of_unit (a : Vector3) :
  Vector3.lengthSquared a = 1 -> Vector3.Normalize a = a.
Proof.
  intros H. unfold Vector3.Normalize, Vector3.length. rewrite H, sqrt_1.
  destruct (Req_dec_T 1 0) as [E|_]; [lra|].
  destruct a as [ax ay az]. apply Vector3_ext; entries; lra.
Qed.

Lemma view_example :
  Spec.view (mkVector3 0 0 0) (mkVector3 0 0 1) = Matrix.Identity.
Proof.
  unfold Spec.view, Matrix.LookAtLH.
  replace (Vector3.subtract
             (Vector3.add (mkVector3 0 0 0) (mkVector3 0 0 1))
             (mkVector3 0 0 0))
    with (mkVector3 0 0 1)
    by (unfold Vector3.subtract, Vector3.add;
        apply Vector3_ext; entries; lra).
  rewrite (Normalize_of_unit (mkVector3 0 0 1))
    by (unfold Vector3.lengthSquared; entries; lra).
  replace (Vector3.Cross Vector3.Up (mkVector3 0 0 1))
    with (mkVector3 1 0 0)
    by (unfold Vector3.Cross, Vector3.Up; apply Vector3_ext; entries; lra).
  rewrite (Normalize_of_unit (mkVector3 1 0 0))
    by (unfold Vector3.lengthSquared; entries; lra).
  unfold Vector3.Cross, Vector3.Dot, Matrix.Identity.
  apply Matrix_ext; entries; lra.
Qed.

(** The builder's matrix for the example light, entry by entry. *)
Lemma build_example (near far coneAngle : R) :
  let P := far / (far - near) in
  let Q := - P * near in
  let S := 1 / tan (coneAngle / 2) in
  Spec.build (mkVector3 0 0 0) (mkVector3 0 0 1) near far coneAngle
  = FromValues (S / 2) 0 0 0
               0 (S / 2) 0 0
               (1 / 2) (1 / 2) (P / 2 + 1 / 2) 1
               0 0 (Q / 2) 0.
Proof.
  intros P Q S. unfold Spec.build. rewrite view_example.
  unfold Spec.perspective. fold P. fold Q. fold S.
  generalize P Q S. clear. intros P Q S.
  unfold Matrix.multiply, Matrix.Identity, Spec.biasScale.
  apply Matrix_ext; entries; lra.
Qed.

Lemma sqrt3_gt_1 : 1 < sqrt 3.
Proof.
  rewrite <- sqrt_1 at 1. apply sqrt_lt_1; lra.
Qed.

(** C1 (counterexample).  The example light with the cone angle PI/2 holds
    an up-to-date texture matrix; after the setter of [angle] has returned
    with the new angle PI/3, reading [textureMatrix] does not yield the
    matrix the builder produces from the current five values. *)
Lemma angle_setter_leaves_stale_matrix :
  let w0 := exec computeTextureMatrix (example_world (PI / 2) None) in
  up_to_date w0 /\
  ~ up_to_date (exec (set_angle (PI / 3)) w0).
Proof.
  cbv zeta. split; [apply computeTextureMatrix_up_to_date|].
  unfold up_to_date.
  destruct (set_angle_keeps_matrix (PI / 3)
              (exec computeTextureMatrix (example_world (PI / 2) None)))
    as (Hsame & _).
  rewrite Hsame.
  rewrite (computeTextureMatrix_up_to_date (example_world (PI / 2) None)).
  unfold built_from_current. run_js.
  unfold example_world, example_light. run_js.
  rewrite !build_example. cbv zeta.
  intros H. apply (f_equal m0) in H. entries_in H.
  replace (PI / 2 / 2) with (PI / 4) in H by lra.
  replace (PI / 3 / 2) with (PI / 6) in H by lra.
  rewrite tan_PI4, tan_PI6 in H.
  pose proof sqrt3_gt_1 as Hs.
  assert (Hd : 1 / (1 / sqrt 3) = sqrt 3) by (field; lra).
  rewrite Hd in H. lra.
Qed.

(** ** The shadow projection and the uniform packaging *)

(** The two cases of [v || d]: a stored number other than zero is kept; an
    unset or zero one gives way to [d]. *)
Lemma orElse_stored_nonzero (v d : R) :
  v <> 0 -> orElse (Some v) d = v.
Proof.
  intros Hv. cbn. destruct (Req_dec_T v 0); [contradiction|reflexivity].
Qed.

Lemma orElse_unset_or_zero (o : option R) (d : R) :
  o = None \/ o = Some 0 -> orElse o d = d.
Proof.
  intros [->| ->]; cbn; [reflexivity|].
  destruct (Req_dec_T 0 0); [reflexivity|lra].
Qed.

Section Shadow.

Variable PerspectiveFovLH : R -> R -> R -> R -> Matrix.
Variable resolve : SpotLight -> option (Vector3 * Vector3).

(** With an active camera the build stores the defaulted scale in the light
    and writes the perspective matrix into [matrix]. *)
Lemma shadow_build_effect (w : World) (cam : Camera) (matrix viewMatrix : ref)
    (renderList : list AbstractMesh) :
  activeCamera w = Some cam ->
  let scale := orElse (_shadowAngleScale (this w)) 1 in
  _setDefaultShadowProjectionMatrix PerspectiveFovLH
       matrix viewMatrix renderList w
  = Normal tt
      (mkWorld (with_shadowAngleScale (Some scale) (this w))
         (store (matrices w) matrix
            (PerspectiveFovLH (scale * _angle (this w)) 1
               (depthMinZ cam) (depthMaxZ cam)))
         (activeCamera w) (_uniformBuffer w) (effects w)).
Proof.
  intros Hcam. destruct w as [s h c ub eff]. cbn in Hcam. subst c.
  run_js. reflexivity.
Qed.

(** C3.  When an active camera exists, the shadow-projection build writes
    into [matrix] the left-handed perspective field-of-view matrix whose
    field of view is coneAngle * shadowAngleScale when the scale is set and
    not zero, and coneAngle * 1 when it is unset or zero, whose aspect ratio
    is 1, and whose near and far planes are the depthMinZ and depthMaxZ of
    the camera; the light's own near and far planes of the texture
    projection play no part. *)
Theorem shadow_projection_fov_and_planes (w : World) (cam : Camera)
    (matrix viewMatrix : ref) (renderList : list AbstractMesh) :
  activeCamera w = Some cam ->
  let built := fun w0 =>
    matrices (exec (_setDefaultShadowProjectionMatrix PerspectiveFovLH
       matrix viewMatrix renderList) w0)
             matrix in
  (forall v : R,
     _shadowAngleScale (this w) = Some v -> v <> 0 ->
     built w
     = PerspectiveFovLH (_angle (this w) * v) 1
                        (depthMinZ cam) (depthMaxZ cam)) /\
  (_shadowAngleScale (this w) = None \/
   _shadowAngleScale (this w) = Some 0 ->
   built w
   = PerspectiveFovLH (_angle (this w) * 1) 1
                      (depthMinZ cam) (depthMaxZ cam)) /\
  forall near far : R,
    built (exec (setThis (with_light_near near) ;;
                 setThis (with_light_far far)) w)
    = built w.
Proof.
  intros Hcam built. subst built. cbv beta.
  assert (Hmain : forall w0, activeCamera w0 = Some cam ->
            matrices (exec (_setDefaultShadowProjectionMatrix PerspectiveFovLH
       matrix viewMatrix renderList) w0)
                     matrix
            = PerspectiveFovLH
                (_angle (this w0) * orElse (_shadowAngleScale (this w0)) 1) 1
                (depthMinZ cam) (depthMaxZ cam)).
  { intros w0 H0. unfold exec.
    rewrite (shadow_build_effect w0 cam matrix viewMatrix renderList H0).
    cbn [matrices]. rewrite store_same. f_equal. apply Rmult_comm. }
  split; [|split].
  - intros v Hv Hnz. rewrite (Hmain w Hcam), Hv.
    now rewrite orElse_stored_nonzero.
  - intros Hv. rewrite (Hmain w Hcam).
    now rewrite (orElse_unset_or_zero _ 1 Hv).
  - intros near far. rewrite (Hmain w Hcam).
    rewrite Hmain; [|destruct w; exact Hcam].
    destruct w as [s h c ub eff]. reflexivity.
Qed.

Lemma no_camera_returns_at_once (w : World)
    (matrix viewMatrix : ref) (renderList : list AbstractMesh) :
  activeCamera w = None ->
  _setDefaultShadowProjectionMatrix PerspectiveFovLH
       matrix viewMatrix renderList w = Normal tt w.
Proof.
  intros Hcam. destruct w as [s h c ub eff]. cbn in Hcam. subst c.
  run_js. reflexivity.
Qed.

(** C5.  Without an active camera the shadow-projection update changes
    nothing at all: the world it returns is the world it was given, and so
    the matrix passed to it keeps the value it had. *)
Theorem shadow_projection_without_camera (w : World)
    (matrix viewMatrix : ref) (renderList : list AbstractMesh) :
  activeCamera w = None ->
  _setDefaultShadowProjectionMatrix PerspectiveFovLH
       matrix viewMatrix renderList w = Normal tt w /\
  matrices (exec (_setDefaultShadowProjectionMatrix PerspectiveFovLH
       matrix viewMatrix renderList) w) matrix
  = matrices w matrix.
Proof.
  intros Hcam.
  pose proof (no_camera_returns_at_once
                w matrix viewMatrix renderList Hcam) as Hrun.
  split; [exact Hrun|]. unfold exec. now rewrite Hrun.
Qed.

(** What [transferToEffect] sends to the uniform buffer: the light data and
    then the direction, both computed from the resolved position and
    direction; the light keeps its angle and its scale. *)
Lemma transferToEffect_effect (w : World) (effect : nat)
    (lightIndex : string) :
  let s := this w in
  let pd := match resolve s with
            | Some pd => pd
            | None => (position s, direction s)
            end in
  let n := Vector3.Normalize (snd pd) in
  exists w',
    transferToEffect resolve effect lightIndex w = Normal (this w') w' /\
    _uniformBuffer w'
    = _uniformBuffer w ++
      [updateFloat4 "vLightData" (x (fst pd)) (y (fst pd)) (z (fst pd))
                    (exponent s) lightIndex;
       updateFloat4 "vLightDirection" (x n) (y n) (z n)
                    (cos (_angle s * 0.5)) lightIndex] /\
    _angle (this w') = _angle s /\
    _shadowAngleScale (this w') = _shadowAngleScale s.
Proof.
  destruct w as [s h c ub eff]. destruct s. cbv zeta. run_js.
  match goal with
  | |- context [resolve ?l] => destruct (resolve l) as [[p d]|]
  end;
    destruct projectedLightTexture0;
    eexists (mkWorld _ _ _ _ _); run_js;
    (split; [reflexivity|]); cbn [fst snd];
    rewrite <- app_assoc; repeat split; reflexivity.
Qed.

Lemma last_of_two_appended {A} (l : list A) (a b d : A) :
  last (l ++ [a; b]) d = b.
Proof.
  change [a; b] with ([a] ++ [b]). rewrite app_assoc. apply last_last.
Qed.

(** C4.  The fourth component of the light-direction uniform that
    [transferToEffect] packages is cos (coneAngle / 2), the cosine of the
    half angle, while the field of view the shadow-projection build uses is
    the full coneAngle times the shadow angle scale when the scale is set
    and not zero, and the full coneAngle times 1 when it is unset or zero:
    for one and the same cone angle the two are computed from different
    angle bases. *)
Theorem half_angle_cosine_and_full_angle_fov (w : World) (cam : Camera)
    (effect : nat) (lightIndex : string)
    (matrix viewMatrix : ref) (renderList : list AbstractMesh) :
  activeCamera w = Some cam ->
  let coneAngle := _angle (this w) in
  (exists a b c : R,
     last (_uniformBuffer
             (exec (transferToEffect resolve effect lightIndex) w)) create
     = updateFloat4 "vLightDirection" a b c (cos (coneAngle / 2))
                    lightIndex) /\
  (forall v : R,
     _shadowAngleScale (this w) = Some v -> v <> 0 ->
     matrices (exec (_setDefaultShadowProjectionMatrix PerspectiveFovLH
                       matrix viewMatrix renderList) w) matrix
     = PerspectiveFovLH (coneAngle * v) 1
                        (depthMinZ cam) (depthMaxZ cam)) /\
  (_shadowAngleScale (this w) = None \/
   _shadowAngleScale (this w) = Some 0 ->
   matrices (exec (_setDefaultShadowProjectionMatrix PerspectiveFovLH
                     matrix viewMatrix renderList) w) matrix
   = PerspectiveFovLH (coneAngle * 1) 1
                      (depthMinZ cam) (depthMaxZ cam)).
Proof.
  intros Hcam coneAngle.
  assert (Hfov : matrices
                   (exec (_setDefaultShadowProjectionMatrix PerspectiveFovLH
                            matrix viewMatrix renderList) w) matrix
                 = PerspectiveFovLH
                     (coneAngle * orElse (_shadowAngleScale (this w)) 1) 1
                     (depthMinZ cam) (depthMaxZ cam)).
  { unfold exec.
    rewrite (shadow_build_effect w cam matrix viewMatrix renderList Hcam).
    cbn [matrices]. rewrite store_same. f_equal. apply Rmult_comm. }
  split; [|split].
  - destruct (transferToEffect_effect w effect lightIndex)
      as (w' & Hrun & Hub & _).
    unfold exec. rewrite Hrun, Hub.
    do 3 eexists.
    rewrite last_of_two_appended.
    replace (coneAngle / 2) with (_angle (this w) * 0.5)
      by (unfold coneAngle; lra).
    reflexivity.
  - intros v Hv Hnz. rewrite Hfov, Hv. now rewrite orElse_stored_nonzero.
  - intros Hv. rewrite Hfov. now rewrite (orElse_unset_or_zero _ 1 Hv).
Qed.

(** Every operation returns normally, and one that does not assign zero
    through the setter of [shadowAngleScale] keeps a scale that is set and
    not zero. *)
Lemma orElse_1_nonzero (v : option R) : orElse v 1 <> 0.
Proof.
  destruct v as [r|]; cbn; [destruct (Req_dec_T r 0)|]; lra.
Qed.

Lemma orElse_of_nonzero (v : option R) (d : R) :
  set_and_nonzero v -> Some (orElse v d) = v.
Proof.
  destruct v as [r|]; cbn; [|tauto].
  intros Hr. destruct (Req_dec_T r 0); [contradiction|reflexivity].
Qed.

Lemma run_op_effect (o : Op) (w : World) :
  exists w',
    run_op PerspectiveFovLH resolve o w = Normal tt w' /\
    (~ assigns_zero_scale o ->
     set_and_nonzero (_shadowAngleScale (this w)) ->
     set_and_nonzero (_shadowAngleScale (this w'))).
Proof.
  destruct o as [v|v|v|v|r| |m vm l|e i]; unfold run_op.
  - destruct w as [s h c ub eff]. eexists. split; [run_js; reflexivity|].
    intros _ H. exact H.
  - destruct w as [s h c ub eff]. eexists. split; [run_js; reflexivity|].
    intros _ H. exact H.
  - destruct w as [s h c ub eff]. eexists. split; [run_js; reflexivity|].
    intros _ H. exact H.
  - destruct w as [s h c ub eff]. eexists. split; [run_js; reflexivity|].
    intros Hz _. exact Hz.
  - destruct w as [s h c ub eff]. eexists. split; [run_js; reflexivity|].
    intros _ H. exact H.
  - destruct w as [s h c ub eff]. eexists. split; [run_js; reflexivity|].
    intros _ H. exact H.
  - destruct (activeCamera w) as [cam|] eqn:Hcam.
    + eexists. split; [apply (shadow_build_effect w cam m vm l Hcam)|].
      intros _ _. cbn. apply orElse_1_nonzero.
    + exists w.
      split; [apply (no_camera_returns_at_once w m vm l Hcam)|].
      intros _ H. exact H.
  - destruct (transferToEffect_effect w e i) as (w' & Hrun & _ & _ & Hs).
    exists w'. split; [unfold bind, ret; now rewrite Hrun|].
    intros _ H. now rewrite Hs.
Qed.

Lemma run_ops_effect (os : list Op) (w : World) :
  exists w',
    run_ops PerspectiveFovLH resolve os w = Normal tt w' /\
    (Forall (fun o => ~ assigns_zero_scale o) os ->
     set_and_nonzero (_shadowAngleScale (this w)) ->
     set_and_nonzero (_shadowAngleScale (this w'))).
Proof.
  revert w. induction os as [|o os IH]; intros w.
  - exists w. split; [reflexivity|]. intros _ H. exact H.
  - destruct (run_op_effect o w) as (w1 & Hrun1 & Hkeep1).
    destruct (IH w1) as (w2 & Hrun2 & Hkeep2).
    exists w2. split.
    + cbn [run_ops]. unfold bind. rewrite Hrun1. exact Hrun2.
    + intros Hall Hw. inversion Hall as [|o' os' Ho Hos]; subst.
      apply Hkeep2; [exact Hos|]. apply Hkeep1; assumption.
Qed.

(** C10 (amended).  With an active camera the shadow-projection build
    changes the stored [shadowAngleScale] for good: a scale that was unset
    or zero is overwritten with 1 and a stored scale other than zero is
    kept as it is, so that the
    property reads as a number other than zero once the build has returned;
    it stays so through every later run of operations in which the setter of
    [shadowAngleScale] is not given zero. *)
Theorem shadow_build_stores_defaulted_scale (w : World) (cam : Camera)
    (matrix viewMatrix : ref) (renderList : list AbstractMesh)
    (os : list Op) :
  activeCamera w = Some cam ->
  Forall (fun o => ~ assigns_zero_scale o) os ->
  let w1 := exec (_setDefaultShadowProjectionMatrix PerspectiveFovLH
       matrix viewMatrix renderList) w in
  (_shadowAngleScale (this w) = None \/
   _shadowAngleScale (this w) = Some 0 ->
   _shadowAngleScale (this w1) = Some 1) /\
  (forall v : R,
     _shadowAngleScale (this w) = Some v -> v <> 0 ->
     _shadowAngleScale (this w1) = Some v) /\
  set_and_nonzero (_shadowAngleScale (this w1)) /\
  exists w2,
    run_ops PerspectiveFovLH resolve os w1 = Normal tt w2 /\
    set_and_nonzero (_shadowAngleScale (this w2)).
Proof.
  intros Hcam Hos w1.
  assert (H1 : _shadowAngleScale (this w1)
               = Some (orElse (_shadowAngleScale (this w)) 1)).
  { unfold w1, exec.
    rewrite (shadow_build_effect w cam matrix viewMatrix renderList Hcam).
    reflexivity. }
  assert (H2 : set_and_nonzero (_shadowAngleScale (this w1))).
  { rewrite H1. cbn. apply orElse_1_nonzero. }
  split; [|split; [|split; [exact H2|]]].
  - intros Hv. rewrite H1. now rewrite (orElse_unset_or_zero _ 1 Hv).
  - intros v Hv Hnz. rewrite H1, Hv. now rewrite orElse_stored_nonzero.
  - destruct (run_ops_effect os w1) as (w2 & Hrun & Hkeep).
    exists w2. split; [exact Hrun|]. apply Hkeep; assumption.
Qed.

Lemma buildUniformLayout_slots (w : World) :
  slots (_uniformBuffer (exec _buildUniformLayout w))
  = slots (_uniformBuffer w) ++
    [("vLightData"%string, 4%nat); ("vLightDiffuse"%string, 4%nat);
     ("vLightSpecular"%string, 3%nat); ("vLightDirection"%string, 3%nat);
     ("shadowsInfo"%string, 3%nat); ("depthValues"%string, 2%nat);
     ("textureProjectionFlag"%string, 2%nat)].
Proof.
  destruct w as [s h c ub eff]. run_js. unfold slots.
  rewrite !flat_map_app. cbn [flat_map app].
  rewrite <- !app_assoc. cbn [app]. reflexivity.
Qed.

(** C9 (what the code does).  [_buildUniformLayout] declares the slots
    vLightData 4, vLightDiffuse 4, vLightSpecular 3, vLightDirection 3,
    shadowsInfo 3, depthValues 2 and textureProjectionFlag 2: the direction
    slot is declared with 3 components, while the write [transferToEffect]
    makes to that slot has 4 components. *)
Theorem direction_slot_declared_3_written_4 (w : World) (effect : nat)
    (lightIndex : string) :
  slots (_uniformBuffer (exec _buildUniformLayout w))
  = slots (_uniformBuffer w) ++
    [("vLightData"%string, 4%nat); ("vLightDiffuse"%string, 4%nat);
     ("vLightSpecular"%string, 3%nat); ("vLightDirection"%string, 3%nat);
     ("shadowsInfo"%string, 3%nat); ("depthValues"%string, 2%nat);
     ("textureProjectionFlag"%string, 2%nat)] /\
  written_size "vLightDirection"
    (_uniformBuffer (exec (transferToEffect resolve effect lightIndex) w))
  = Some 4%nat.
Proof.
  split; [apply buildUniformLayout_slots|].
  destruct (transferToEffect_effect w effect lightIndex)
    as (w' & Hrun & Hub & _).
  unfold exec. rewrite Hrun, Hub.
  unfold written_size. rewrite rev_app_distr. reflexivity.
Qed.

End Shadow.

(** ** Examples for the shadow projection *)

(** C3 (witness): the example light with the example camera, once with
    the stored scale 3 and once with no scale. *)
Lemma shadow_projection_fov_and_planes_witness :
  matrices
    (exec (_setDefaultShadowProjectionMatrix PerspectiveFovLH_std
             1%nat 2%nat [])
          (exec (setThis (with_shadowAngleScale (Some 3)))
                (example_world (PI / 2) (Some example_camera)))) 1%nat
  = PerspectiveFovLH_std (PI / 2 * 3) 1 1 100 /\
  matrices
    (exec (_setDefaultShadowProjectionMatrix PerspectiveFovLH_std
             1%nat 2%nat [])
          (example_world (PI / 2) (Some example_camera))) 1%nat
  = PerspectiveFovLH_std (PI / 2 * 1) 1 1 100.
Proof.
  split.
  - destruct (shadow_projection_fov_and_planes PerspectiveFovLH_std
                (exec (setThis (with_shadowAngleScale (Some 3)))
                      (example_world (PI / 2) (Some example_camera)))
                example_camera 1%nat 2%nat [] eq_refl) as [H _].
    apply (H 3); [reflexivity|lra].
  - destruct (shadow_projection_fov_and_planes PerspectiveFovLH_std
                (example_world (PI / 2) (Some example_camera))
                example_camera 1%nat 2%nat [] eq_refl) as (_ & H & _).
    apply H. left. reflexivity.
Defined.

(** C4 (witness): the example light with the stored scale 3, its uniform
    and its shadow matrix. *)
Lemma half_angle_cosine_and_full_angle_fov_witness :
  (exists a b c : R,
     last (_uniformBuffer
             (exec (transferToEffect noParent 0 "0")
                   (exec (setThis (with_shadowAngleScale (Some 3)))
                         (example_world (PI / 2) (Some example_camera)))))
          create
     = updateFloat4 "vLightDirection" a b c (cos (PI / 2 / 2)) "0") /\
  matrices
    (exec (_setDefaultShadowProjectionMatrix PerspectiveFovLH_std
             1%nat 2%nat [])
          (exec (setThis (with_shadowAngleScale (Some 3)))
                (example_world (PI / 2) (Some example_camera)))) 1%nat
  = PerspectiveFovLH_std (PI / 2 * 3) 1 1 100.
Proof.
  destruct (half_angle_cosine_and_full_angle_fov PerspectiveFovLH_std
              noParent
              (exec (setThis (with_shadowAngleScale (Some 3)))
                    (example_world (PI / 2) (Some example_camera)))
              example_camera 0%nat "0" 1%nat 2%nat [] eq_refl)
    as (Hcos & Hset & _).
  split; [exact Hcos|].
  apply (Hset 3); [reflexivity|lra].
Defined.

(** C5 (witness): the example light in a scene without camera. *)
Lemma shadow_projection_without_camera_witness :
  _setDefaultShadowProjectionMatrix PerspectiveFovLH_std 1%nat 2%nat []
    (example_world (PI / 2) None)
  = Normal tt (example_world (PI / 2) None).
Proof.
  exact (proj1 (shadow_projection_without_camera PerspectiveFovLH_std
                  (example_world (PI / 2) None) 1%nat 2%nat [] eq_refl)).
Defined.

(** C10 (witness): the example light with the stored scale 3 is built, then
    given a new angle, the scale 5 and a second build; the first build keeps
    the scale 3. *)
Lemma shadow_build_stores_defaulted_scale_witness :
  _shadowAngleScale
    (this (exec (_setDefaultShadowProjectionMatrix PerspectiveFovLH_std
                   1%nat 2%nat [])
                (exec (setThis (with_shadowAngleScale (Some 3)))
                      (example_world (PI / 2) (Some example_camera)))))
  = Some 3.
Proof.
  destruct (shadow_build_stores_defaulted_scale PerspectiveFovLH_std noParent
              (exec (setThis (with_shadowAngleScale (Some 3)))
                    (example_world (PI / 2) (Some example_camera)))
              example_camera 1%nat 2%nat []
              [SetAngle (PI / 3); SetShadowAngleScale 5;
               SetDefaultShadowProjectionMatrix 1%nat 2%nat []]
              eq_refl) as (_ & H & _).
  - repeat constructor; cbn; [tauto|lra|tauto].
  - apply (H 3); [reflexivity|lra].
Defined.

(** C10 (counterexample).  The example light has no scale; a first
    shadow-projection build with a camera stores one that is not zero; the
    setter of [shadowAngleScale] then assigns zero, and the property reads
    zero again. *)
Lemma scale_reads_zero_after_a_build :
  let w1 := exec (_setDefaultShadowProjectionMatrix PerspectiveFovLH_std
                    1%nat 2%nat [])
                 (example_world (PI / 2) (Some example_camera)) in
  set_and_nonzero (_shadowAngleScale (this w1)) /\
  _shadowAngleScale (this (exec (set_shadowAngleScale 0) w1)) = Some 0 /\
  ~ set_and_nonzero
      (_shadowAngleScale (this (exec (set_shadowAngleScale 0) w1))).
Proof.
  cbv zeta. unfold example_world. run_js. cbn.
  split; [lra|]. split; [reflexivity|]. intros H. apply H. reflexivity.
Qed.

(** ** Points of the optical axis

    Division is total on the reals, while the source divides by zero into
    Infinity and NaN when near = far or tan (angle / 2) = 0.  The theorems
    on texture coordinates are therefore stated for 0 < near < far and
    0 < angle < PI, where both quotients of [computeTextureMatrix] are
    defined. *)

Lemma TransformCoordinates_rows (v : Vector3) (t : Matrix) :
  TransformCoordinates v t = perspectiveDivide (rowTimes (homogeneous v) t).
Proof.
  unfold TransformCoordinates, perspectiveDivide, rowTimes, homogeneous.
  apply Vector3_ext; entries; f_equal; ring.
Qed.

Lemma Row_ext (a b c d a' b' c' d' : R) :
  a = a' -> b = b' -> c = c' -> d = d' ->
  ((a, b, c, d) : Row) = (a', b', c', d').
Proof. intros; subst; reflexivity. Qed.

Lemma rowTimes_multiply (r : Row) (s t : Matrix) :
  rowTimes r (Matrix.multiply s t) = rowTimes (rowTimes r s) t.
Proof.
  destruct r as [[[a b] c] d]. destruct s, t.
  unfold rowTimes, Matrix.multiply. entries.
  apply Row_ext; ring.
Qed.

Lemma length_nonzero (a : Vector3) :
  a <> Vector3.Zero -> Vector3.length a <> 0.
Proof.
  intros Ha Hl. apply Ha. unfold Vector3.length in Hl.
  destruct a as [ax ay az].
  assert (Hsq : Vector3.lengthSquared (mkVector3 ax ay az) = 0).
  { apply sqrt_eq_0; [|exact Hl].
    unfold Vector3.lengthSquared; entries. nra. }
  unfold Vector3.lengthSquared in Hsq. entries_in Hsq.
  apply Vector3_ext; unfold Vector3.Zero; entries; nra.
Qed.

Lemma Normalize_is_unit (a : Vector3) :
  a <> Vector3.Zero ->
  Vector3.Dot (Vector3.Normalize a) (Vector3.Normalize a) = 1.
Proof.
  intros Ha. pose proof (length_nonzero a Ha) as Hl.
  unfold Vector3.Normalize.
  destruct (Req_dec_T (Vector3.length a) 0) as [E|_]; [contradiction|].
  assert (Hsq : Vector3.length a * Vector3.length a
                = Vector3.lengthSquared a).
  { unfold Vector3.length. apply sqrt_sqrt.
    unfold Vector3.lengthSquared. nra. }
  set (l := Vector3.length a) in *. clearbody l.
  destruct a as [ax ay az].
  unfold Vector3.lengthSquared in Hsq. entries_in Hsq.
  unfold Vector3.Dot. entries.
  replace (ax / l * (ax / l) + ay / l * (ay / l) + az / l * (az / l))
    with ((ax * ax + ay * ay + az * az) / (l * l)) by (field; exact Hl).
  rewrite <- Hsq. field. exact Hl.
Qed.

(** A normalized vector is a multiple of the vector it comes from. *)
Lemma Normalize_is_multiple (a : Vector3) :
  exists k : R, Vector3.Normalize a = Vector3.scale a k.
Proof.
  unfold Vector3.Normalize.
  destruct (Req_dec_T (Vector3.length a) 0) as [E|Hl].
  - exists 1. destruct a. apply Vector3_ext; unfold Vector3.scale; entries;
      ring.
  - exists (/ Vector3.length a).
    apply Vector3_ext; unfold Vector3.scale; entries; reflexivity.
Qed.

(** The view matrix carries the point of the axis at depth [d] to
    [(0, 0, d)]. *)
Lemma view_of_axis_point (position direction : Vector3) (d : R) :
  direction <> Vector3.Zero ->
  rowTimes
    (homogeneous
       (Vector3.add position
          (Vector3.scale (Vector3.Normalize direction) d)))
    (Spec.view position direction)
  = (0, 0, d, 1).
Proof.
  intros Hdir. pose proof (Normalize_is_unit direction Hdir) as Hunit.
  unfold Spec.view, Matrix.LookAtLH.
  replace (Vector3.subtract (Vector3.add position direction) position)
    with direction
    by (destruct direction, position;
        unfold Vector3.subtract, Vector3.add;
        apply Vector3_ext; entries; ring).
  set (zA := Vector3.Normalize direction) in *.
  destruct (Normalize_is_multiple (Vector3.Cross Vector3.Up zA)) as [k Hk].
  rewrite Hk. clearbody zA. clear Hk Hdir.
  destruct zA as [zx zy zz], position as [px py pz].
  unfold Vector3.Dot in Hunit. entries_in Hunit.
  unfold homogeneous, rowTimes, Vector3.add, Vector3.scale, Vector3.Cross,
    Vector3.Dot, Vector3.Up.
  entries.
  apply Row_ext; try ring.
  transitivity (d * (zx * zx + zy * zy + zz * zz)); [ring|].
  rewrite Hunit. ring.
Qed.

Lemma computeTextureMatrix_reads (w : World) :
  read_textureMatrix (exec computeTextureMatrix w) = built_from_current w.
Proof.
  destruct (computeTextureMatrix_effect w)
    as (w' & Hrun & Hthis & _ & _ & _ & Hm & _).
  unfold exec, read_textureMatrix. rewrite Hrun, Hthis. exact Hm.
Qed.

(** The texture-projection matrix carries the point of the axis at depth
    [d] to a row whose first two components are half the fourth, which is
    [d]. *)
Lemma build_of_axis_point (position direction : Vector3)
    (near far coneAngle d : R) :
  direction <> Vector3.Zero ->
  exists c : R,
    rowTimes
      (homogeneous
         (Vector3.add position
            (Vector3.scale (Vector3.Normalize direction) d)))
      (Spec.build position direction near far coneAngle)
    = (0.5 * d, 0.5 * d, c, d).
Proof.
  intros Hdir. unfold Spec.build.
  rewrite !rowTimes_multiply, (view_of_axis_point _ _ _ Hdir).
  unfold Spec.perspective, Spec.biasScale, rowTimes. entries.
  eexists. apply Row_ext; [lra|lra|reflexivity|lra].
Qed.

(** C7 (amended).  In the example scenario (position (0,0,0), direction
    (0,0,1), near 1e-7, far 1000, cone angle PI/2) the computed
    texture-projection matrix, applied with homogeneous divide, carries the
    point (0,0,500) to (0.5, 0.5, z) with z within 1e-3 of 1.  For every
    light with a direction other than zero, planes 0 < near < far and a
    cone angle 0 < angle < PI (the inputs for which the quotients
    far / (far - near) and 1 / tan (angle / 2) are defined), the point of
    the optical axis at a depth d with near <= d <= far is carried to
    texture coordinates x = y = 0.5 exactly. *)
Theorem axis_points_map_to_texture_centre :
  (let t := read_textureMatrix
              (exec computeTextureMatrix (example_world (PI / 2) None)) in
   let q := TransformCoordinates (mkVector3 0 0 500) t in
   x q = 0.5 /\ y q = 0.5 /\ Rabs (z q - 1) < 1e-3) /\
  (forall (w : World) (d : R),
     direction (this w) <> Vector3.Zero ->
     0 < _light_near (this w) ->
     _light_near (this w) < _light_far (this w) ->
     0 < _angle (this w) < PI ->
     _light_near (this w) <= d ->
     d <= _light_far (this w) ->
     let t := read_textureMatrix (exec computeTextureMatrix w) in
     let q := TransformCoordinates (axis_point (this w) d) t in
     x q = 0.5 /\ y q = 0.5).
Proof.
  split.
  - cbv zeta.
    rewrite (computeTextureMatrix_up_to_date (example_world (PI / 2) None)).
    unfold built_from_current, example_world, example_light. run_js.
    rewrite build_example. cbv zeta.
    unfold TransformCoordinates. entries.
    repeat split; try lra.
    apply Rabs_def1; lra.
  - intros w d Hdir Hnear _ _ Hd _. cbv zeta.
    rewrite (computeTextureMatrix_reads w).
    unfold built_from_current, axis_point.
    rewrite TransformCoordinates_rows.
    destruct (build_of_axis_point (position (this w)) (direction (this w))
                (_light_near (this w)) (_light_far (this w))
                (_angle (this w)) d Hdir) as [c Hrow].
    rewrite Hrow. unfold perspectiveDivide. entries.
    split; field; lra.
Qed.

(** C7 (witness): the point at depth 500 of the axis of the example
    light. *)
Lemma axis_points_map_to_texture_centre_witness :
  let w := example_world (PI / 2) None in
  let q := TransformCoordinates
             (axis_point (this w) 500)
             (read_textureMatrix (exec computeTextureMatrix w)) in
  x q = 0.5 /\ y q = 0.5.
Proof.
  apply (proj2 axis_points_map_to_texture_centre
           (example_world (PI / 2) None) 500).
  - intros H. apply (f_equal z) in H. cbn in H. lra.
  - cbn. lra.
  - cbn. lra.
  - cbn. pose proof PI_RGT_0. lra.
  - cbn. lra.
  - cbn. lra.
Defined.

(** C7 (counterexample).  In the example scenario the point (0,0,500) is
    not carried to a depth within 1e-3 of 0.5: its texture-space depth is
    larger than 0.9. *)
Lemma depth_of_500_is_not_a_half :
  let t := read_textureMatrix
             (exec computeTextureMatrix (example_world (PI / 2) None)) in
  let q := TransformCoordinates (mkVector3 0 0 500) t in
  0.9 < z q /\ ~ Rabs (z q - 0.5) <= 1e-3.
Proof.
  cbv zeta.
  rewrite (computeTextureMatrix_reads (example_world (PI / 2) None)).
  unfold built_from_current, example_world, example_light. run_js.
  rewrite build_example. cbv zeta.
  unfold TransformCoordinates. entries.
  assert (Hz : 0.9 < (0 * 0 + 0 * 0 +
                      500 * (1000 / (1000 - 1e-7) / 2 + 1 / 2) +
                      - (1000 / (1000 - 1e-7)) * 1e-7 / 2)
                     / (0 * 0 + 0 * 0 + 500 * 1 + 0)) by lra.
  split; [exact Hz|].
  intros H.
  match type of H with Rabs ?a <= _ => pose proof (Rle_abs a) as Ha end.
  lra.
Qed.

(** ** Degenerate geometry *)

(** C8 (amended).  The texture-projection build signals no error for any
    input, degenerate or not: it always returns normally, and the matrix it
    stores is the product view * perspective * biasScale computed with the
    unguarded quotients far / (far - near) and 1 / tan (angle / 2). *)
Theorem texture_build_never_signals (w : World) :
  exists w',
    computeTextureMatrix w = Normal tt w' /\
    read_textureMatrix w' = built_from_current w /\
    m10 (Spec.perspective (_light_near (this w)) (_light_far (this w))
                          (_angle (this w)))
    = _light_far (this w) / (_light_far (this w) - _light_near (this w)) /\
    forall e : Error, computeTextureMatrix w <> Throw e.
Proof.
  destruct (computeTextureMatrix_effect w)
    as (w' & Hrun & Hthis & _ & _ & _ & Hm & _).
  exists w'. split; [exact Hrun|]. split; [|split].
  - unfold read_textureMatrix. rewrite Hthis. exact Hm.
  - reflexivity.
  - intros e He. rewrite Hrun in He. discriminate He.
Qed.

(** C8 (counterexample).  With the near plane equal to the far plane the
    build of the example light does not fail with [InvalidLightGeometry]: it
    returns normally and stores a matrix whose depth entry is computed from
    the quotient 1000 / (1000 - 1000). *)
Lemma degenerate_build_returns_normally :
  let w := exec (setThis (with_light_near 1000))
                (example_world (PI / 2) None) in
  _light_near (this w) = _light_far (this w) /\
  computeTextureMatrix w <> Throw InvalidLightGeometry /\
  (exists w', computeTextureMatrix w = Normal tt w') /\
  m10 (read_textureMatrix (exec computeTextureMatrix w))
  = 1000 / (1000 - 1000) / 2 + 1 / 2.
Proof.
  cbv zeta. split; [reflexivity|].
  destruct (computeTextureMatrix_effect
              (exec (setThis (with_light_near 1000))
                    (example_world (PI / 2) None)))
    as (w' & Hrun & _).
  split; [rewrite Hrun; discriminate|].
  split; [exists w'; exact Hrun|].
  rewrite computeTextureMatrix_reads.
  unfold built_from_current, example_world, example_light. run_js.
  rewrite build_example. reflexivity.
Qed.

(** * Further properties of the class *)

(** ** [computeTextureMatrix] and the setters that run it *)

(** X1.  [computeTextureMatrix] writes to one object only, the matrix the
    light refers to: every other matrix object keeps its contents, and the
    light, the camera, the uniform buffer and the effect calls are as
    before. *)
Theorem computeTextureMatrix_writes_one_object (w : World) (r : ref) :
  r <> _textureMatrix (this w) ->
  let w' := exec computeTextureMatrix w in
  matrices w' r = matrices w r /\
  this w' = this w /\
  activeCamera w' = activeCamera w /\
  _uniformBuffer w' = _uniformBuffer w /\
  effects w' = effects w.
Proof.
  intros Hr. cbv zeta.
  destruct (computeTextureMatrix_effect w)
    as (w' & Hrun & Hthis & Hcam & Hub & Heff & _ & Hother).
  unfold exec. rewrite Hrun.
  repeat split; try assumption. now apply Hother.
Qed.

(** X1 (witness): the caller's object 1 of the two-object world. *)
Lemma computeTextureMatrix_writes_one_object_witness :
  matrices (exec computeTextureMatrix two_object_world) 1%nat
  = Matrix.Identity.
Proof.
  apply (computeTextureMatrix_writes_one_object two_object_world 1%nat).
  cbn. discriminate.
Defined.

(** X2.  [computeTextureMatrix] is idempotent: it starts from a copy of the
    view matrix, so a second run does not multiply into the result of the
    first; after two runs the light and every matrix object are as after
    one. *)
Theorem computeTextureMatrix_twice (w : World) :
  let w1 := exec computeTextureMatrix w in
  let w2 := exec computeTextureMatrix w1 in
  this w2 = this w1 /\
  (forall r, matrices w2 r = matrices w1 r) /\
  _uniformBuffer w2 = _uniformBuffer w1 /\
  effects w2 = effects w1.
Proof.
  cbv zeta.
  destruct (computeTextureMatrix_effect w)
    as (w1 & Hrun1 & Hthis1 & _ & _ & _ & Hm1 & _).
  destruct (computeTextureMatrix_effect w1)
    as (w2 & Hrun2 & Hthis2 & _ & Hub2 & Heff2 & Hm2 & Hother2).
  unfold exec. rewrite Hrun1, Hrun2.
  repeat split; try assumption.
  intros r. destruct (Nat.eq_dec r (_textureMatrix (this w1))) as [->|Hne].
  - rewrite Hm2.
    replace (matrices w1 (_textureMatrix (this w1)))
      with (built_from_current w)
      by (rewrite Hthis1; symmetry; exact Hm1).
    unfold built_from_current. now rewrite Hthis1.
  - now apply Hother2.
Qed.

(** X3.  A call of [computeTextureMatrix] after the setter of [angle], as
    the comment of the class asks for, brings the texture matrix up to date:
    it is then the builder's matrix for the new angle. *)
Theorem recompute_after_angle_change (w : World) (v : R) :
  let w' := exec (set_angle v ;; computeTextureMatrix) w in
  up_to_date w' /\
  _angle (this w') = v /\
  read_textureMatrix w'
  = Spec.build (position (this w)) (direction (this w))
               (_light_near (this w)) (_light_far (this w)) v.
Proof.
  cbv zeta.
  assert (Hseq : exec (set_angle v ;; computeTextureMatrix) w
                 = exec computeTextureMatrix (exec (set_angle v) w)).
  { destruct w as [s h c ub eff]. run_js. reflexivity. }
  rewrite Hseq. split; [apply computeTextureMatrix_up_to_date|].
  destruct (computeTextureMatrix_effect (exec (set_angle v) w))
    as (w' & Hrun & Hthis & _ & _ & _ & Hm & _).
  unfold exec at 1 3. rewrite Hrun. rewrite Hthis.
  split; [destruct w; reflexivity|].
  unfold read_textureMatrix. rewrite Hthis, Hm.
  destruct w as [s h c ub eff]. reflexivity.
Qed.

(** X4.  The setters of [light_near] and [light_far] commute: in either
    order they leave the same light and the same contents in every matrix
    object. *)
Theorem near_and_far_setters_commute (w : World) (n f : R) :
  let w1 := exec (set_light_near n ;; set_light_far f) w in
  let w2 := exec (set_light_far f ;; set_light_near n) w in
  this w1 = this w2 /\
  (forall r, matrices w1 r = matrices w2 r) /\
  read_textureMatrix w1
  = Spec.build (position (this w)) (direction (this w)) n f
               (_angle (this w)).
Proof.
  destruct w as [s h c ub eff]. cbv zeta. run_js.
  unfold read_textureMatrix. run_js.
  split; [reflexivity|]. split.
  - intros r. destruct (Nat.eq_dec r (_textureMatrix s)) as [->|Hne].
    + rewrite !store_same. reflexivity.
    + rewrite !store_other by assumption. reflexivity.
  - rewrite !store_same. reflexivity.
Qed.

(** X5.  The setter of [textureMatrix] leaves the object the light held
    before untouched when the assigned object is another one: the rebuild
    goes into the assigned object, whose former contents are lost. *)
Theorem textureMatrix_setter_spares_old_object (w : World) (v : ref) :
  v <> _textureMatrix (this w) ->
  let w' := exec (set_textureMatrix v) w in
  matrices w' (_textureMatrix (this w)) = matrices w (_textureMatrix (this w)) /\
  matrices w' v = built_from_current w /\
  forall r, r <> v -> matrices w' r = matrices w r.
Proof.
  intros Hv. cbv zeta. rewrite exec_set_textureMatrix.
  set (w0 := exec (setThis (with_textureMatrix v)) w).
  assert (Href : _textureMatrix (this w0) = v) by (destruct w; reflexivity).
  assert (Hmat : matrices w0 = matrices w) by (destruct w; reflexivity).
  assert (Hbuilt : built_from_current w0 = built_from_current w)
    by (destruct w; reflexivity).
  destruct (computeTextureMatrix_effect w0)
    as (w' & Hrun & _ & _ & _ & _ & Hm & Hother).
  unfold exec. rewrite Hrun.
  rewrite Href in Hm, Hother. rewrite Hmat in Hother. rewrite Hbuilt in Hm.
  split; [|split].
  - apply Hother. intros E. apply Hv. now symmetry.
  - exact Hm.
  - exact Hother.
Qed.

(** X5 (witness): the caller's object 1 is assigned in the two-object world;
    the object 0 the light held keeps its contents. *)
Lemma textureMatrix_setter_spares_old_object_witness :
  matrices (exec (set_textureMatrix 1%nat) two_object_world) 0%nat
  = Matrix.Zero.
Proof.
  assert (H : 1%nat <> _textureMatrix (this two_object_world))
    by (cbn; discriminate).
  exact (proj1 (textureMatrix_setter_spares_old_object
                  two_object_world 1%nat H)).
Defined.

(** ** The packaging and the shadow projection, continued *)

Section Packaging.

Variable PerspectiveFovLH : R -> R -> R -> R -> Matrix.
Variable resolve : SpotLight -> option (Vector3 * Vector3).

(** The whole of what [transferToEffect] does. *)
Lemma transferToEffect_world (w : World) (effect : nat)
    (lightIndex : string) :
  let s := this w in
  let pd := effective resolve s in
  let n := Vector3.Normalize (snd pd) in
  let s' := match resolve s with
            | Some (p, d) => with_transformed p d s
            | None => s
            end in
  transferToEffect resolve effect lightIndex w
  = Normal s'
      (mkWorld s' (matrices w) (activeCamera w)
         (_uniformBuffer w ++
          [updateFloat4 "vLightData" (x (fst pd)) (y (fst pd)) (z (fst pd))
                        (exponent s) lightIndex;
           updateFloat4 "vLightDirection" (x n) (y n) (z n)
                        (cos (_angle s * 0.5)) lightIndex])
         (effects w ++
          setMatrix effect ("textureMatrix" ++ lightIndex)
                    (read_textureMatrix w)
          :: match projectedLightTexture s with
             | Some t =>
                 [setTexture effect
                    ("projectionLightSampler" ++ lightIndex) t]
             | None => []
             end)).
Proof.
  destruct w as [s h c ub eff]. destruct s. cbv zeta.
  unfold effective, read_textureMatrix. run_js.
  match goal with
  | |- context [resolve ?l] => destruct (resolve l) as [[p d]|]
  end;
    destruct projectedLightTexture0; run_js; cbn [fst snd];
    rewrite <- !app_assoc; reflexivity.
Qed.

Lemma computeTextureMatrix_returns_fresh (w : World) :
  exists w', computeTextureMatrix w = Normal tt w' /\ up_to_date w'.
Proof.
  destruct (computeTextureMatrix_effect w) as (w' & Hrun & _).
  exists w'. split; [exact Hrun|].
  pose proof (computeTextureMatrix_up_to_date w) as H.
  unfold exec in H. now rewrite Hrun in H.
Qed.

Lemma run_op_keeps_up_to_date (o : Op) (w : World) :
  keeps_texture_matrix o ->
  up_to_date w ->
  exists w',
    run_op PerspectiveFovLH resolve o w = Normal tt w' /\ up_to_date w'.
Proof.
  intros Ho Hw.
  destruct o as [v|v|v|v|r| |m vm l|e i]; unfold run_op;
    try contradiction.
  - apply (computeTextureMatrix_returns_fresh
             (exec (setThis (with_light_far v)) w)).
  - apply (computeTextureMatrix_returns_fresh
             (exec (setThis (with_light_near v)) w)).
  - destruct w as [s h c ub eff]. eexists. split; [run_js; reflexivity|].
    exact Hw.
  - apply (computeTextureMatrix_returns_fresh
             (exec (setThis (with_textureMatrix r)) w)).
  - apply computeTextureMatrix_returns_fresh.
  - eexists. split.
    + unfold bind, ret. rewrite transferToEffect_world. reflexivity.
    + destruct w as [s h c ub eff].
      unfold up_to_date, read_textureMatrix, built_from_current in *.
      cbn [this matrices] in *.
      destruct (resolve s) as [[p d]|]; exact Hw.
Qed.

(** X6.  An up-to-date texture matrix stays up to date through every run of
    operations that contains neither the setter of [angle] nor the
    shadow-projection build: the setters of near, far and [textureMatrix]
    rebuild it, and the setter of [shadowAngleScale] and [transferToEffect]
    change nothing it depends on.  Every such run returns normally. *)
Theorem texture_matrix_stays_up_to_date (os : list Op) (w : World) :
  Forall keeps_texture_matrix os ->
  up_to_date w ->
  exists w',
    run_ops PerspectiveFovLH resolve os w = Normal tt w' /\ up_to_date w'.
Proof.
  intros Hos. revert w.
  induction Hos as [|o os Ho _ IH]; intros w Hw.
  - exists w. split; [reflexivity|exact Hw].
  - destruct (run_op_keeps_up_to_date o w Ho Hw) as (w1 & Hrun1 & Hw1).
    destruct (IH w1 Hw1) as (w2 & Hrun2 & Hw2).
    exists w2. split; [|exact Hw2].
    cbn [run_ops]. unfold bind. rewrite Hrun1. exact Hrun2.
Qed.

(** X7.  With an active camera the shadow-projection build writes to one
    object only, the matrix it is given, and changes one field of the
    light, [shadowAngleScale]: every other matrix object, the recompute
    request, the uniform buffer and the effect calls are as before, and the
    texture matrix reads as before when it is another object than the
    target. *)
Theorem shadow_build_writes_one_object (w : World) (cam : Camera)
    (matrix viewMatrix : ref) (renderList : list AbstractMesh) :
  activeCamera w = Some cam ->
  let w' := exec (_setDefaultShadowProjectionMatrix PerspectiveFovLH
                    matrix viewMatrix renderList) w in
  (forall r, r <> matrix -> matrices w' r = matrices w r) /\
  this w'
  = with_shadowAngleScale (Some (orElse (_shadowAngleScale (this w)) 1))
                          (this w) /\
  _uniformBuffer w' = _uniformBuffer w /\
  effects w' = effects w /\
  (_textureMatrix (this w) <> matrix ->
   read_textureMatrix w' = read_textureMatrix w).
Proof.
  intros Hcam. cbv zeta. unfold exec.
  rewrite (shadow_build_effect PerspectiveFovLH w cam matrix viewMatrix
             renderList Hcam).
  unfold read_textureMatrix. cbn [matrices this _uniformBuffer effects].
  repeat split.
  - intros r Hr. now apply store_other.
  - intros Hr. destruct w as [s h c ub eff]. destruct s.
    cbn in *. now apply store_other.
Qed.

Lemma orElse_idempotent (v : option R) :
  orElse (Some (orElse v 1)) 1 = orElse v 1.
Proof.
  cbn. destruct (Req_dec_T (orElse v 1) 0) as [E|_]; [|reflexivity].
  exfalso. exact (orElse_1_nonzero v E).
Qed.

(** X8.  The shadow-projection build is idempotent, with or without a
    camera: the scale the first build has stored is not zero, so the second
    build keeps it and writes the same matrix. *)
Theorem shadow_build_twice (w : World) (matrix viewMatrix : ref)
    (renderList : list AbstractMesh) :
  let build := _setDefaultShadowProjectionMatrix PerspectiveFovLH
                 matrix viewMatrix renderList in
  let w1 := exec build w in
  let w2 := exec build w1 in
  this w2 = this w1 /\ forall r, matrices w2 r = matrices w1 r.
Proof.
  cbv zeta. destruct (activeCamera w) as [cam|] eqn:Hcam.
  - pose proof (shadow_build_effect PerspectiveFovLH w cam matrix viewMatrix
                  renderList Hcam) as H1.
    cbv zeta in H1.
    assert (E1 : exec (_setDefaultShadowProjectionMatrix PerspectiveFovLH
                         matrix viewMatrix renderList) w
                 = mkWorld
                     (with_shadowAngleScale
                        (Some (orElse (_shadowAngleScale (this w)) 1))
                        (this w))
                     (store (matrices w) matrix
                        (PerspectiveFovLH
                           (orElse (_shadowAngleScale (this w)) 1
                            * _angle (this w)) 1
                           (depthMinZ cam) (depthMaxZ cam)))
                     (activeCamera w) (_uniformBuffer w) (effects w))
      by (unfold exec; now rewrite H1).
    rewrite E1. clear E1 H1.
    match goal with
    | |- context [exec _ ?w0] => set (w1 := w0)
    end.
    assert (Hcam1 : activeCamera w1 = Some cam) by exact Hcam.
    pose proof (shadow_build_effect PerspectiveFovLH w1 cam matrix
                  viewMatrix renderList Hcam1) as H2.
    cbv zeta in H2. unfold exec. rewrite H2. clear H2.
    subst w1. destruct w as [s h c ub eff]. destruct s.
    cbn [this matrices with_shadowAngleScale _shadowAngleScale _angle
         position direction transformedPosition transformedDirection
         _needProjectionMatrixCompute projectedLightTexture _light_far
         _light_near exponent _textureMatrix].
    rewrite orElse_idempotent. split; [reflexivity|].
    intros r. destruct (Nat.eq_dec r matrix) as [->|Hne].
    + rewrite !store_same. reflexivity.
    + rewrite !store_other by assumption. reflexivity.
  - unfold exec.
    rewrite (no_camera_returns_at_once PerspectiveFovLH w matrix viewMatrix
               renderList Hcam).
    rewrite (no_camera_returns_at_once PerspectiveFovLH w matrix viewMatrix
               renderList Hcam).
    split; reflexivity.
Qed.

(** X9.  A scale assigned through the setter of [shadowAngleScale] is the
    factor of the next shadow-projection build when it is not zero; an
    assigned zero is replaced by 1, in the field of view and in the stored
    field. *)
Theorem assigned_scale_is_used_by_next_build (w : World) (cam : Camera)
    (v : R) (matrix viewMatrix : ref) (renderList : list AbstractMesh) :
  activeCamera w = Some cam ->
  let w' := exec (set_shadowAngleScale v ;;
                  _setDefaultShadowProjectionMatrix PerspectiveFovLH
                    matrix viewMatrix renderList) w in
  let used := if Req_dec_T v 0 then 1 else v in
  matrices w' matrix
  = PerspectiveFovLH (used * _angle (this w)) 1
                     (depthMinZ cam) (depthMaxZ cam) /\
  _shadowAngleScale (this w') = Some used.
Proof.
  intros Hcam. destruct w as [s h c ub eff]. cbn in Hcam. subst c.
  cbv zeta. run_js. unfold orElse.
  rewrite store_same. split; reflexivity.
Qed.

End Packaging.

Lemma exec_then {A B} (c : M A) (k : M B) (w w1 w2 : World) (a : A) (b : B) :
  c w = Normal a w1 -> k w1 = Normal b w2 -> exec (c ;; k) w = w2.
Proof. intros Hc Hk. unfold exec, bind. now rewrite Hc, Hk. Qed.

Section Uniforms.

Variable resolve : SpotLight -> option (Vector3 * Vector3).

(** X10.  [transferToEffect] returns the light itself and changes none of
    the values the matrices and the uniforms are computed from: position,
    direction, near, far, angle, scale, exponent, the projected texture and
    the texture matrix object are as before, and so are the contents of
    every matrix object.  Only the cached transformed position and
    direction are replaced, and only under a parent transform; without one
    the light is exactly as before. *)
Theorem transferToEffect_preserves_the_light (w : World) (effect : nat)
    (lightIndex : string) :
  exists (s' : SpotLight) (w' : World),
    transferToEffect resolve effect lightIndex w = Normal s' w' /\
    s' = this w' /\
    position s' = position (this w) /\
    direction s' = direction (this w) /\
    _light_near s' = _light_near (this w) /\
    _light_far s' = _light_far (this w) /\
    _angle s' = _angle (this w) /\
    _shadowAngleScale s' = _shadowAngleScale (this w) /\
    exponent s' = exponent (this w) /\
    projectedLightTexture s' = projectedLightTexture (this w) /\
    _textureMatrix s' = _textureMatrix (this w) /\
    matrices w' = matrices w /\
    (forall p d, resolve (this w) = Some (p, d) ->
                 transformedPosition s' = p /\ transformedDirection s' = d) /\
    (resolve (this w) = None -> s' = this w).
Proof.
  do 2 eexists. split; [apply transferToEffect_world|].
  cbn [this matrices].
  destruct (resolve (this w)) as [[p d]|];
    repeat (split; [reflexivity|]).
  - split.
    + intros p' d' H. inversion H. subst. split; reflexivity.
    + intros H. discriminate H.
  - split.
    + intros p' d' H. discriminate H.
    + intros _. reflexivity.
Qed.

(** X11.  [transferToEffect] sends exactly two writes to the uniform
    buffer, the light data first and the direction second, both under the
    given light index: the data are the effective position and the
    exponent, the direction is the normalized effective direction and
    cos (angle * 0.5).  Effective means resolved by the parent transform
    when there is one, and the light's own position and direction
    otherwise. *)
Theorem transferToEffect_uniform_writes (w : World) (effect : nat)
    (lightIndex : string) :
  let s := this w in
  let p := match resolve s with Some (p, _) => p | None => position s end in
  let d := match resolve s with Some (_, d) => d | None => direction s end in
  let n := Vector3.Normalize d in
  _uniformBuffer (exec (transferToEffect resolve effect lightIndex) w)
  = _uniformBuffer w ++
    [updateFloat4 "vLightData" (x p) (y p) (z p) (exponent s) lightIndex;
     updateFloat4 "vLightDirection" (x n) (y n) (z n)
                  (cos (_angle s * 0.5)) lightIndex].
Proof.
  cbv zeta. unfold exec. rewrite transferToEffect_world.
  cbn [_uniformBuffer]. unfold effective.
  destruct (resolve (this w)) as [[p d]|]; reflexivity.
Qed.

(** X12.  The direction [transferToEffect] packages has length one whenever
    the effective direction is not the zero vector; a zero direction is
    packaged as it is, as three zeros. *)
Theorem packaged_direction_is_normalized (w : World) (effect : nat)
    (lightIndex : string) :
  let d := snd (effective resolve (this w)) in
  exists a b c k : R,
    last (_uniformBuffer (exec (transferToEffect resolve effect lightIndex) w))
         create
    = updateFloat4 "vLightDirection" a b c k lightIndex /\
    (d <> Vector3.Zero -> a * a + b * b + c * c = 1) /\
    (d = Vector3.Zero -> a = 0 /\ b = 0 /\ c = 0).
Proof.
  cbv zeta. unfold exec. rewrite transferToEffect_world.
  cbn [_uniformBuffer]. rewrite last_of_two_appended.
  do 4 eexists. split; [reflexivity|]. split.
  - intros Hd. exact (Normalize_is_unit _ Hd).
  - intros Hd. rewrite Hd.
    unfold Vector3.Normalize, Vector3.Zero.
    destruct (Req_dec_T _ 0); entries; repeat split; try reflexivity;
      unfold Rdiv; apply Rmult_0_l.
Qed.

(** X13.  [transferToEffect] binds the current contents of the texture
    matrix under the name "textureMatrix" followed by the light index, and
    binds the projected texture under "projectionLightSampler" followed by
    the light index only when the light has one: without a projected
    texture the matrix is the only call the effect receives. *)
Theorem transferToEffect_effect_calls (w : World) (effect : nat)
    (lightIndex : string) :
  effects (exec (transferToEffect resolve effect lightIndex) w)
  = effects w ++
    setMatrix effect ("textureMatrix" ++ lightIndex) (read_textureMatrix w)
    :: match projectedLightTexture (this w) with
       | Some t =>
           [setTexture effect ("projectionLightSampler" ++ lightIndex) t]
       | None => []
       end.
Proof.
  unfold exec. rewrite transferToEffect_world. reflexivity.
Qed.

(** X14.  When the angle is changed and the light is packaged without a
    call of [computeTextureMatrix] in between, the uniforms carry the
    cosine of half the new angle while the matrix bound to the effect is
    still the one the light held before the change. *)
Theorem angle_change_is_packaged_with_old_matrix (w : World) (v : R)
    (effect : nat) (lightIndex : string) :
  let w' := exec (set_angle v ;;
                  transferToEffect resolve effect lightIndex) w in
  (exists a b c : R,
     last (_uniformBuffer w') create
     = updateFloat4 "vLightDirection" a b c (cos (v / 2)) lightIndex) /\
  exists rest,
    effects w'
    = effects w ++
      setMatrix effect ("textureMatrix" ++ lightIndex) (read_textureMatrix w)
      :: rest.
Proof.
  cbv zeta.
  assert (H1 : set_angle v w = Normal tt (exec (set_angle v) w))
    by (destruct w; reflexivity).
  erewrite exec_then; [|exact H1|apply transferToEffect_world].
  cbn [_uniformBuffer effects]. split.
  - rewrite last_of_two_appended. do 3 eexists.
    replace (v / 2) with (_angle (this (exec (set_angle v) w)) * 0.5)
      by (destruct w; cbn; lra).
    reflexivity.
  - eexists. destruct w as [s h c ub eff]. reflexivity.
Qed.

(** X15.  When near or far is changed through its setter and the light is
    packaged next, the matrix bound to the effect is the builder's matrix
    for the new value. *)
Theorem near_far_change_is_packaged_with_new_matrix (w : World) (v : R)
    (effect : nat) (lightIndex : string) :
  let s := this w in
  In (setMatrix effect ("textureMatrix" ++ lightIndex)
        (Spec.build (position s) (direction s) v (_light_far s) (_angle s)))
     (effects (exec (set_light_near v ;;
                     transferToEffect resolve effect lightIndex) w)) /\
  In (setMatrix effect ("textureMatrix" ++ lightIndex)
        (Spec.build (position s) (direction s) (_light_near s) v (_angle s)))
     (effects (exec (set_light_far v ;;
                     transferToEffect resolve effect lightIndex) w)).
Proof.
  cbv zeta. split.
  - destruct (computeTextureMatrix_effect
                (exec (setThis (with_light_near v)) w))
      as (w1 & Hrun & Hthis & _ & _ & _ & Hm & _).
    assert (H1 : set_light_near v w = Normal tt w1) by exact Hrun.
    erewrite exec_then; [|exact H1|apply transferToEffect_world].
    cbn [effects]. apply in_or_app. right. left. f_equal.
    unfold read_textureMatrix. rewrite Hthis, Hm.
    destruct w as [s h c ub eff]. reflexivity.
  - destruct (computeTextureMatrix_effect
                (exec (setThis (with_light_far v)) w))
      as (w1 & Hrun & Hthis & _ & _ & _ & Hm & _).
    assert (H1 : set_light_far v w = Normal tt w1) by exact Hrun.
    erewrite exec_then; [|exact H1|apply transferToEffect_world].
    cbn [effects]. apply in_or_app. right. left. f_equal.
    unfold read_textureMatrix. rewrite Hthis, Hm.
    destruct w as [s h c ub eff]. reflexivity.
Qed.

(** X16.  Every slot [transferToEffect] writes to is a slot
    [_buildUniformLayout] declares: the packaging writes to "vLightData"
    and "vLightDirection" and to nothing else, and both names are among the
    declarations of the layout, which ends with the creation of the
    buffer. *)
Theorem packaged_slots_are_declared (w w0 : World) (effect : nat)
    (lightIndex : string) :
  let layout := _uniformBuffer (exec _buildUniformLayout w0) in
  written_names
    (_uniformBuffer (exec (transferToEffect resolve effect lightIndex) w))
  = written_names (_uniformBuffer w)
    ++ ["vLightData"%string; "vLightDirection"%string] /\
  In "vLightData"%string (map fst (slots layout)) /\
  In "vLightDirection"%string (map fst (slots layout)) /\
  last layout (addUniform "" 0) = create /\
  written_names layout = written_names (_uniformBuffer w0).
Proof.
  cbv zeta. split; [|split; [|split; [|split]]].
  - unfold exec. rewrite transferToEffect_world. cbn [_uniformBuffer].
    unfold written_names. rewrite flat_map_app. reflexivity.
  - rewrite buildUniformLayout_slots, map_app. apply in_or_app. right.
    cbn. tauto.
  - rewrite buildUniformLayout_slots, map_app. apply in_or_app. right.
    cbn. tauto.
  - destruct w0 as [s h c ub eff]. run_js. apply last_last.
  - destruct w0 as [s h c ub eff]. run_js. unfold written_names.
    rewrite !flat_map_app. cbn [flat_map app]. now rewrite !app_nil_r.
Qed.

End Uniforms.

(** ** The texture projection in the frame of the light *)

(** A point of view space, carried through the perspective and the bias. *)
Lemma project_view_space (vx vy vz near far coneAngle : R) :
  let P := far / (far - near) in
  let Q := - P * near in
  let S := 1 / tan (coneAngle / 2) in
  rowTimes (rowTimes (vx, vy, vz, 1) (Spec.perspective near far coneAngle))
           Spec.biasScale
  = (0.5 * (S * vx) + 0.5 * vz,
     0.5 * (S * vy) + 0.5 * vz,
     0.5 * (P * vz + Q) + 0.5 * vz,
     vz).
Proof.
  intros P Q S. unfold Spec.perspective. fold P. fold Q. fold S.
  generalize P Q S. clear. intros P Q S.
  unfold Spec.biasScale, rowTimes. entries.
  assert (Hh : 0.5 = / 2) by lra. rewrite !Hh.
  apply Row_ext; field.
Qed.

(** The view matrix carries a point to its coordinates in the frame of the
    light. *)
Lemma view_of_frame_point (s : SpotLight) (a b d : R) :
  direction s <> Vector3.Zero ->
  Vector3.Cross Vector3.Up (zAxis s) <> Vector3.Zero ->
  rowTimes (homogeneous (frame_point s a b d))
           (Spec.view (position s) (direction s))
  = (a, b, d, 1).
Proof.
  intros Hdir Hcross.
  pose proof (Normalize_is_unit (direction s) Hdir) as Hzz.
  pose proof (Normalize_is_unit _ Hcross) as Hxx.
  assert (Hxz : Vector3.Dot (xAxis s) (zAxis s) = 0).
  { unfold xAxis.
    destruct (Normalize_is_multiple (Vector3.Cross Vector3.Up (zAxis s)))
      as [k Hk].
    rewrite Hk. destruct (zAxis s) as [zx zy zz].
    unfold Vector3.Dot, Vector3.scale, Vector3.Cross, Vector3.Up. entries.
    ring. }
  unfold frame_point, yAxis, Spec.view, Matrix.LookAtLH.
  replace (Vector3.subtract (Vector3.add (position s) (direction s))
                            (position s))
    with (direction s)
    by (destruct (direction s), (position s);
        unfold Vector3.subtract, Vector3.add;
        apply Vector3_ext; entries; ring).
  fold (zAxis s) in Hzz |- *. fold (xAxis s) in Hxx |- *.
  destruct (zAxis s) as [zx zy zz], (xAxis s) as [xx xy xz],
    (position s) as [px py pz].
  unfold Vector3.Dot in Hzz, Hxx, Hxz. entries_in Hzz. entries_in Hxx.
  entries_in Hxz.
  unfold homogeneous, rowTimes, Vector3.add, Vector3.scale, Vector3.Cross,
    Vector3.Dot.
  entries.
  apply Row_ext.
  - transitivity (a * (xx * xx + xy * xy + xz * xz)
                  + d * (xx * zx + xy * zy + xz * zz)); [ring|].
    rewrite Hxx, Hxz. ring.
  - transitivity (b * ((zx * zx + zy * zy + zz * zz)
                       * (xx * xx + xy * xy + xz * xz)
                       - (xx * zx + xy * zy + xz * zz)
                         * (xx * zx + xy * zy + xz * zz))); [ring|].
    rewrite Hzz, Hxx, Hxz. ring.
  - transitivity (a * (xx * zx + xy * zy + xz * zz)
                  + d * (zx * zx + zy * zy + zz * zz)); [ring|].
    rewrite Hzz, Hxz. ring.
  - ring.
Qed.

(** The row the texture matrix makes of a point of the frame, before the
    homogeneous divide. *)
Lemma frame_point_row (w : World) (a b d : R) :
  direction (this w) <> Vector3.Zero ->
  Vector3.Cross Vector3.Up (zAxis (this w)) <> Vector3.Zero ->
  let s := this w in
  let P := _light_far s / (_light_far s - _light_near s) in
  let Q := - P * _light_near s in
  let S := 1 / tan (_angle s / 2) in
  rowTimes (homogeneous (frame_point s a b d))
           (read_textureMatrix (exec computeTextureMatrix w))
  = (0.5 * (S * a) + 0.5 * d,
     0.5 * (S * b) + 0.5 * d,
     0.5 * (P * d + Q) + 0.5 * d,
     d).
Proof.
  intros Hdir Hcross. cbv zeta.
  rewrite computeTextureMatrix_reads. unfold built_from_current, Spec.build.
  rewrite !rowTimes_multiply.
  rewrite (view_of_frame_point (this w) a b d Hdir Hcross).
  apply project_view_space.
Qed.

(** X18.  In the frame of the light (x axis the normalized cross product of
    up and direction, y axis the cross product of direction and x axis,
    z axis the normalized direction), the point with the coordinates a, b
    and depth d <> 0 has the texture coordinates
    (0.5 + 0.5 S a / d, 0.5 + 0.5 S b / d, 0.5 + 0.5 (P + Q / d)), with
    S = 1 / tan (angle / 2), P = far / (far - near) and Q = - P near, for
    every light whose direction is neither zero nor vertical, whose planes
    are 0 < near < far and whose cone angle is 0 < angle < PI. *)
Theorem texture_coordinates_in_light_frame (w : World) (a b d : R) :
  direction (this w) <> Vector3.Zero ->
  Vector3.Cross Vector3.Up (zAxis (this w)) <> Vector3.Zero ->
  0 < _light_near (this w) ->
  _light_near (this w) < _light_far (this w) ->
  0 < _angle (this w) < PI ->
  d <> 0 ->
  let s := this w in
  let P := _light_far s / (_light_far s - _light_near s) in
  let Q := - P * _light_near s in
  let S := 1 / tan (_angle s / 2) in
  TransformCoordinates (frame_point s a b d)
                       (read_textureMatrix (exec computeTextureMatrix w))
  = mkVector3 (0.5 * (S * a) / d + 0.5)
              (0.5 * (S * b) / d + 0.5)
              (0.5 * (P + Q / d) + 0.5).
Proof.
  intros Hdir Hcross _ _ _ Hd. cbv zeta.
  rewrite TransformCoordinates_rows.
  rewrite (frame_point_row w a b d Hdir Hcross).
  unfold perspectiveDivide. cbv zeta.
  generalize (1 / tan (_angle (this w) / 2))
             (_light_far (this w)
              / (_light_far (this w) - _light_near (this w))).
  intros S P.
  assert (Hh : 0.5 = / 2) by lra. rewrite !Hh.
  apply Vector3_ext; entries; field; exact Hd.
Qed.

Lemma example_is_not_vertical (angle : R) :
  direction (example_light angle) <> Vector3.Zero /\
  Vector3.Cross Vector3.Up (zAxis (example_light angle)) <> Vector3.Zero.
Proof.
  split.
  - intros H. apply (f_equal z) in H. cbn in H. lra.
  - unfold zAxis. cbn [direction example_light].
    rewrite (Normalize_of_unit (mkVector3 0 0 1))
      by (unfold Vector3.lengthSquared; entries; lra).
    intros H. apply (f_equal x) in H.
    unfold Vector3.Cross, Vector3.Up, Vector3.Zero in H. entries_in H. lra.
Qed.

(** X18 (witness): a point of the example light's frame. *)
Lemma texture_coordinates_in_light_frame_witness :
  let w := example_world (PI / 2) None in
  x (TransformCoordinates (frame_point (this w) 3 4 5)
       (read_textureMatrix (exec computeTextureMatrix w)))
  = 0.5 * (1 / tan (PI / 2 / 2) * 3) / 5 + 0.5.
Proof.
  cbv zeta.
  rewrite (texture_coordinates_in_light_frame
             (example_world (PI / 2) None) 3 4 5
             (proj1 (example_is_not_vertical (PI / 2)))
             (proj2 (example_is_not_vertical (PI / 2)))).
  - reflexivity.
  - cbn. lra.
  - cbn. lra.
  - cbn. pose proof PI_RGT_0. lra.
  - lra.
Defined.

(** X19.  The texture projection spans the full cone angle: for a light
    with 0 < angle < PI and planes 0 < near < far whose direction is neither
    zero nor vertical, the
    points at depth d > 0 that lie on the boundary of the cone to the right,
    to the left, above and below the axis are carried to the texture edges
    x = 1, x = 0, y = 1 and y = 0. *)
Theorem cone_boundary_maps_to_texture_edges (w : World) (d : R) :
  direction (this w) <> Vector3.Zero ->
  Vector3.Cross Vector3.Up (zAxis (this w)) <> Vector3.Zero ->
  0 < _light_near (this w) ->
  _light_near (this w) < _light_far (this w) ->
  0 < _angle (this w) < PI ->
  0 < d ->
  let r := d * tan (_angle (this w) / 2) in
  let tex := fun a b =>
    TransformCoordinates (frame_point (this w) a b d)
                         (read_textureMatrix (exec computeTextureMatrix w)) in
  x (tex r 0) = 1 /\ x (tex (- r) 0) = 0 /\
  y (tex 0 r) = 1 /\ y (tex 0 (- r)) = 0.
Proof.
  intros Hdir Hcross _ _ Hangle Hd r tex. subst tex r. cbv beta.
  assert (Ht : 0 < tan (_angle (this w) / 2)) by (apply tan_gt_0; lra).
  rewrite !TransformCoordinates_rows.
  rewrite !(frame_point_row w _ _ d Hdir Hcross).
  unfold perspectiveDivide. cbv zeta. entries.
  assert (Hh : 0.5 = / 2) by lra. rewrite !Hh.
  repeat split; field; split; lra.
Qed.

(** X19 (witness): the example light with the cone angle PI/2 at depth 5. *)
Lemma cone_boundary_maps_to_texture_edges_witness :
  let w := example_world (PI / 2) None in
  x (TransformCoordinates (frame_point (this w) (5 * tan (PI / 2 / 2)) 0 5)
       (read_textureMatrix (exec computeTextureMatrix w)))
  = 1.
Proof.
  assert (Ha : 0 < _angle (this (example_world (PI / 2) None)) < PI)
    by (cbn; pose proof PI_RGT_0; lra).
  assert (Hd : 0 < 5) by lra.
  assert (Hn : 0 < _light_near (this (example_world (PI / 2) None)))
    by (cbn; lra).
  assert (Hf : _light_near (this (example_world (PI / 2) None))
               < _light_far (this (example_world (PI / 2) None)))
    by (cbn; lra).
  exact (proj1 (cone_boundary_maps_to_texture_edges
                  (example_world (PI / 2) None) 5
                  (proj1 (example_is_not_vertical (PI / 2)))
                  (proj2 (example_is_not_vertical (PI / 2)))
                  Hn Hf Ha Hd)).
Defined.

Lemma axis_point_depth (w : World) (d : R) :
  direction (this w) <> Vector3.Zero ->
  d <> 0 ->
  let s := this w in
  let P := _light_far s / (_light_far s - _light_near s) in
  z (TransformCoordinates (axis_point s d)
       (read_textureMatrix (exec computeTextureMatrix w)))
  = 0.5 * (P - P * _light_near s / d) + 0.5.
Proof.
  intros Hdir Hd. cbv zeta.
  rewrite computeTextureMatrix_reads.
  unfold built_from_current, Spec.build, axis_point.
  rewrite TransformCoordinates_rows, !rowTimes_multiply.
  rewrite (view_of_axis_point _ _ d Hdir).
  rewrite project_view_space. unfold perspectiveDivide. cbv zeta.
  generalize (_light_far (this w)
              / (_light_far (this w) - _light_near (this w))).
  intros P. entries.
  assert (Hh : 0.5 = / 2) by lra. rewrite !Hh.
  field; exact Hd.
Qed.

(** X17.  For a light with a direction other than zero, planes
    0 < near < far and a cone angle 0 < angle < PI, the texture-space depth of the points of the optical
    axis is 0.5 at the near plane and 1 at the far plane and grows strictly
    with the depth: the depth range [near, far] is carried into
    [0.5, 1]. *)
Theorem texture_depth_of_the_axis (w : World) :
  direction (this w) <> Vector3.Zero ->
  0 < _light_near (this w) ->
  _light_near (this w) < _light_far (this w) ->
  0 < _angle (this w) < PI ->
  let depth := fun d =>
    z (TransformCoordinates (axis_point (this w) d)
         (read_textureMatrix (exec computeTextureMatrix w))) in
  depth (_light_near (this w)) = 0.5 /\
  depth (_light_far (this w)) = 1 /\
  (forall d1 d2, 0 < d1 -> d1 < d2 -> depth d1 < depth d2) /\
  (forall d, _light_near (this w) <= d <= _light_far (this w) ->
             0.5 <= depth d <= 1).
Proof.
  intros Hdir Hnear Hfar _ depth.
  set (near := _light_near (this w)) in *.
  set (far := _light_far (this w)) in *.
  assert (Hformula : forall d, 0 < d ->
            depth d = 0.5 * (far / (far - near)
                             - far / (far - near) * near / d) + 0.5).
  { intros d Hd. unfold depth.
    rewrite (axis_point_depth w d Hdir) by lra. reflexivity. }
  assert (Hh : 0.5 = / 2) by lra.
  assert (Hn : depth near = 0.5).
  { rewrite Hformula by lra. rewrite !Hh. field. lra. }
  assert (Hf : depth far = 1).
  { rewrite Hformula by lra. rewrite !Hh. field. lra. }
  assert (Hmono : forall d1 d2, 0 < d1 -> d1 < d2 -> depth d1 < depth d2).
  { intros d1 d2 H1 H12. rewrite !Hformula by lra.
    assert (HP : 0 < far / (far - near) * near).
    { apply Rmult_lt_0_compat; [apply Rdiv_lt_0_compat|]; lra. }
    assert (Hinv : / d2 < / d1).
    { apply Rinv_lt_contravar; [apply Rmult_lt_0_compat|]; lra. }
    pose proof (Rmult_lt_compat_l _ _ _ HP Hinv) as Hlt.
    unfold Rdiv in *. lra. }
  split; [exact Hn|]. split; [exact Hf|]. split; [exact Hmono|].
  intros d [Hlo Hhi]. split.
  - destruct Hlo as [Hlt|Heq].
    + rewrite <- Hn. left. apply Hmono; lra.
    + rewrite <- Heq. right. symmetry. exact Hn.
  - destruct Hhi as [Hlt|Heq].
    + rewrite <- Hf. left. apply Hmono; lra.
    + rewrite Heq. right. exact Hf.
Qed.

(** X17 (witness): the example light, near 1e-7 and far 1000. *)
Lemma texture_depth_of_the_axis_witness :
  let w := example_world (PI / 2) None in
  z (TransformCoordinates (axis_point (this w) 1000)
       (read_textureMatrix (exec computeTextureMatrix w)))
  = 1.
Proof.
  assert (Hn : 0 < _light_near (this (example_world (PI / 2) None)))
    by (cbn; lra).
  assert (Hf : _light_near (this (example_world (PI / 2) None))
               < _light_far (this (example_world (PI / 2) None)))
    by (cbn; lra).
  assert (Ha : 0 < _angle (this (example_world (PI / 2) None)) < PI)
    by (cbn; pose proof PI_RGT_0; lra).
  exact (proj1 (proj2 (texture_depth_of_the_axis
                         (example_world (PI / 2) None)
                         (proj1 (example_is_not_vertical (PI / 2)))
                         Hn Hf Ha))).
Defined.

(** ** Examples for the further properties *)

(** X6 (witness): a run of four operations on the built example light. *)
Lemma texture_matrix_stays_up_to_date_witness :
  exists w',
    run_ops PerspectiveFovLH_std noParent
      [SetLightNear 1; SetShadowAngleScale 2; TransferToEffect 0 "0";
       SetLightFar 10]
      (exec computeTextureMatrix (example_world (PI / 2) None))
    = Normal tt w' /\ up_to_date w'.
Proof.
  apply (texture_matrix_stays_up_to_date PerspectiveFovLH_std noParent).
  - repeat (constructor; [exact I|]). constructor.
  - apply computeTextureMatrix_up_to_date.
Defined.

(** X7 (witness): a build into the object 1 of the two-object world, whose
    light holds the object 0. *)
Lemma shadow_build_writes_one_object_witness :
  read_textureMatrix
    (exec (_setDefaultShadowProjectionMatrix PerspectiveFovLH_std
             1%nat 2%nat [])
          two_object_world)
  = read_textureMatrix two_object_world.
Proof.
  assert (H : _textureMatrix (this two_object_world) <> 1%nat)
    by (cbn; discriminate).
  destruct (shadow_build_writes_one_object PerspectiveFovLH_std
              two_object_world example_camera 1%nat 2%nat [] eq_refl)
    as (_ & _ & _ & _ & Hread).
  exact (Hread H).
Defined.

(** X9 (witness): the scale 3 is assigned to the example light and used. *)
Lemma assigned_scale_is_used_by_next_build_witness :
  _shadowAngleScale
    (this (exec (set_shadowAngleScale 3 ;;
                 _setDefaultShadowProjectionMatrix PerspectiveFovLH_std
                   1%nat 2%nat [])
                (example_world (PI / 2) (Some example_camera))))
  = Some (if Req_dec_T 3 0 then 1 else 3).
Proof.
  exact (proj2 (assigned_scale_is_used_by_next_build PerspectiveFovLH_std
                  (example_world (PI / 2) (Some example_camera))
                  example_camera 3 1%nat 2%nat [] eq_refl)).
Defined.

(** X10 (witness): the example light without a parent transform. *)
Lemma transferToEffect_preserves_the_light_witness :
  exists (s' : SpotLight) (w' : World),
    transferToEffect noParent 0 "0" (example_world (PI / 2) None)
    = Normal s' w' /\
    s' = this (example_world (PI / 2) None).
Proof.
  destruct (transferToEffect_preserves_the_light noParent
              (example_world (PI / 2) None) 0%nat "0")
    as (s' & w' & Hrun & H).
  exists s', w'. split; [exact Hrun|].
  apply H. reflexivity.
Defined.

(** X12 (witness): the direction (0,0,1) of the example light. *)
Lemma packaged_direction_is_normalized_witness :
  exists a b c k : R,
    last (_uniformBuffer
            (exec (transferToEffect noParent 0 "0")
                  (example_world (PI / 2) None))) create
    = updateFloat4 "vLightDirection" a b c k "0" /\
    a * a + b * b + c * c = 1.
Proof.
  destruct (packaged_direction_is_normalized noParent
              (example_world (PI / 2) None) 0%nat "0")
    as (a & b & c & k & Hlast & Hunit & _).
  exists a, b, c, k. split; [exact Hlast|].
  apply Hunit. exact (proj1 (example_is_not_vertical (PI / 2))).
Defined.
